(** * ApolloPyClient: a shallow embedding of [apollopyclient.py]

    The client keeps a configuration dictionary and a release key in a Python
    object, mirrors them to a JSON file, and refreshes them from an HTTP
    server, either on demand ([connect], [update_config]) or from two
    background loops ([schedule_update], [perceptual_update]).

    The embedding follows the source method by method.  Python values are an
    inductive type, the mutable object [self] and the outside world (files,
    network, clock) are threaded through a state-and-exception monad, and the
    library functions the source calls ([json.loads], [json.dumps],
    [urllib.parse.quote], ...) are the fields of an interface [Runtime]. *)

From stdpp Require Import gmap strings list fin_maps.
From Stdlib Require Import ZArith Ascii String DecimalString.

Set Warnings "-register-all".
Local Open Scope string_scope.
Local Open Scope Z_scope.

(** ** Python values and exceptions *)

(** The exception classes the code can meet.  All of them derive from
    [Exception], so every [except Exception] clause catches each one. *)
Inductive exn :=
  | KeyError | IndexError | TypeError | AttributeError
  | ValueError | OSError | ConnectionError.

Inductive res (A : Type) :=
  | Ok (a : A)
  | Raise (e : exn).
Arguments Ok {A} a.
Arguments Raise {A} e.

(** The values [json.loads] and [Response.json] can produce, and [None].
    Numbers that are not integers are outside the embedding. *)
Inductive pyval :=
  | PNone
  | PBool (b : bool)
  | PInt (z : Z)
  | PStr (s : string)
  | PList (l : list pyval)
  | PDict (d : gmap string pyval).

(** [bool(v)], the test of [if v:]. *)
Definition truthy (v : pyval) : bool :=
  match v with
  | PNone => false
  | PBool b => b
  | PInt z => negb (z =? 0)
  | PStr s => negb (String.eqb s "")
  | PList l => match l with [] => false | _ :: _ => true end
  | PDict d => negb (Nat.eqb (size d) 0)
  end.

(** [v[k]] for a string [k]. *)
Definition getitem (v : pyval) (k : string) : res pyval :=
  match v with
  | PDict d => match d !! k with Some x => Ok x | None => Raise KeyError end
  | _ => Raise TypeError
  end.

(** [v[i]] for an index [i >= 0].  The keys of a dictionary that came out of
    JSON are strings, so an integer key is never found. *)
Definition getindex (v : pyval) (i : nat) : res pyval :=
  match v with
  | PList l => match l !! i with Some x => Ok x | None => Raise IndexError end
  | PStr s =>
      match String.get i s with
      | Some c => Ok (PStr (String c EmptyString))
      | None => Raise IndexError
      end
  | PDict _ => Raise KeyError
  | _ => Raise TypeError
  end.

(** [v[k] = x] for a string [k]: only a dictionary accepts it. *)
Definition setitem (v : pyval) (k : string) (x : pyval) : res pyval :=
  match v with
  | PDict d => Ok (PDict (<[k := x]> d))
  | _ => Raise TypeError
  end.

(** [v.get(k)]: the method exists on dictionaries only, and answers [None]
    for a key that is not there. *)
Definition dict_get (v : pyval) (k : string) : res pyval :=
  match v with
  | PDict d => Ok (default PNone (d !! k))
  | _ => Raise AttributeError
  end.

Definition string_of_Z (z : Z) : string :=
  NilZero.string_of_int (Z.to_int z).

(** ['%d' % v]. *)
Definition format_d (v : pyval) : res string :=
  match v with
  | PInt z => Ok (string_of_Z z)
  | PBool b => Ok (if b then "1" else "0")
  | _ => Raise TypeError
  end.

(** The double quote, as a one-character string. *)
Definition dq : string := String (Ascii.ascii_of_nat 34) EmptyString.

(** [s.strip("/")]. *)
Fixpoint lstrip_slash (s : string) : string :=
  match s with
  | String c s' => if Ascii.eqb c "/"%char then lstrip_slash s' else s
  | EmptyString => s
  end.

Fixpoint rstrip_slash (s : string) : string :=
  match s with
  | EmptyString => EmptyString
  | String c s' =>
      match rstrip_slash s' with
      | EmptyString => if Ascii.eqb c "/"%char then EmptyString else String c EmptyString
      | t => String c t
      end
  end.

Definition strip_slash (s : string) : string := rstrip_slash (lstrip_slash s).

(** ** The libraries the client calls *)

(** What the source imports and this repository does not define. *)
Class Runtime := {
  (** [json.loads]; [None] when it raises *)
  json_loads : string → option pyval;
  (** [json.dumps] *)
  json_dumps : pyval → string;
  (** [urllib.parse.quote] *)
  quote : string → string;
  (** [str(v)] for a list or a dictionary *)
  repr_container : pyval → string;
  (** the attribute [status_code] of the module [requests], if it has one *)
  requests_status_code : option pyval;
}.

(** The codec contract the persistence claims rely on: a flat dictionary of
    strings survives [json.dumps] followed by [json.loads]. *)
Definition flat (m : gmap string string) : gmap string pyval := PStr <$> m.

Definition codec_round_trips `{Runtime} : Prop :=
  ∀ m : gmap string string,
    json_loads (json_dumps (PDict (flat m))) = Some (PDict (flat m)).

(** ["{}".format(v)]. *)
Definition format_s `{Runtime} (v : pyval) : string :=
  match v with
  | PNone => "None"
  | PBool b => if b then "True" else "False"
  | PInt z => string_of_Z z
  | PStr s => s
  | _ => repr_container v
  end.

(** ** The object and the world around it *)

(** The attributes of an [ApolloPyClient].  [config_url] and
    [notification_url] exist only once [connect] has run: [None] is the
    missing attribute.  For [namespaceName] and [filename], [None] is
    Python's [None]. *)
Record client := Client {
  sign : bool;
  releaseKey : pyval;
  filename : option string;
  namespaceName : option string;
  notificationId : pyval;
  configurations : pyval;
  config_url : option string;
  notification_url : option string;
}.

(** What a path can name. *)
Inductive fnode :=
  | Directory
  | Undecodable              (* a file whose bytes are not UTF-8 *)
  | Text (content : string).

(** What [requests.get] hands back: [r.status_code] and the outcome of
    [r.json()], [None] when the body is not JSON. *)
Record response := Response {
  status_code : Z;
  json : option pyval;
}.

(** The world: the file system, the answers the network will give to the
    coming requests ([None] is a transport failure, and so is an exhausted
    script), the URLs requested so far and the sleeps taken so far, both
    latest first. *)
Record world := World {
  files : gmap string fnode;
  script : list (option response);
  sent : list string;
  slept : list Z;
}.

Record state := State {
  self : client;
  env : world;
}.

(** ** Statements: state passing with exceptions *)

(** A statement runs on a state and ends normally or by raising; in both
    cases the effects it had so far stay. *)
Definition M (A : Type) : Type := state → res A * state.

Definition ret {A} (a : A) : M A := λ s, (Ok a, s).
Definition raise {A} (e : exn) : M A := λ s, (Raise e, s).
Definition bind {A B} (m : M A) (k : A → M B) : M B :=
  λ s, match m s with
       | (Ok a, s') => k a s'
       | (Raise e, s') => (Raise e, s')
       end.
(** [try: m except Exception as e: h e] *)
Definition try_except {A} (m : M A) (h : exn → M A) : M A :=
  λ s, match m s with
       | (Ok a, s') => (Ok a, s')
       | (Raise e, s') => h e s'
       end.
Definition lift {A} (r : res A) : M A := λ s, (r, s).

Notation "'let*' x := m 'in' k" := (bind m (λ x, k))
  (at level 10, x name, m at level 100, k at level 200).
Notation "m ;; k" := (bind m (λ _, k))
  (at level 100, k at level 200, right associativity).

Definition read {A} (f : client → A) : M A := λ s, (Ok (f (self s)), s).
Definition update (f : client → client) : M unit :=
  λ s, (Ok tt, State (f (self s)) (env s)).
(** Reading an attribute that may not have been set. *)
Definition attr {A} (f : client → option A) : M A :=
  λ s, match f (self s) with
       | Some a => (Ok a, s)
       | None => (Raise AttributeError, s)
       end.

Definition set_sign (b : bool) (c : client) : client :=
  Client b (releaseKey c) (filename c) (namespaceName c) (notificationId c)
         (configurations c) (config_url c) (notification_url c).
Definition set_releaseKey (v : pyval) (c : client) : client :=
  Client (sign c) v (filename c) (namespaceName c) (notificationId c)
         (configurations c) (config_url c) (notification_url c).
Definition set_notificationId (v : pyval) (c : client) : client :=
  Client (sign c) (releaseKey c) (filename c) (namespaceName c) v
         (configurations c) (config_url c) (notification_url c).
Definition set_configurations (v : pyval) (c : client) : client :=
  Client (sign c) (releaseKey c) (filename c) (namespaceName c)
         (notificationId c) v (config_url c) (notification_url c).
Definition set_urls (ns cfg ntf : string) (c : client) : client :=
  Client (sign c) (releaseKey c) (filename c) (Some ns) (notificationId c)
         (configurations c) (Some cfg) (Some ntf).

(** [requests.get(url)]: the request is recorded, the next scripted answer
    is consumed. *)
Definition requests_get (url : string) : M response :=
  λ s,
    let w := env s in
    match script w with
    | Some r :: rest =>
        (Ok r, State (self s) (World (files w) rest (url :: sent w) (slept w)))
    | None :: rest =>
        (Raise ConnectionError,
         State (self s) (World (files w) rest (url :: sent w) (slept w)))
    | [] =>
        (Raise ConnectionError,
         State (self s) (World (files w) [] (url :: sent w) (slept w)))
    end.

(** [r.json()] *)
Definition response_json (r : response) : M pyval :=
  match json r with
  | Some v => ret v
  | None => raise ValueError
  end.

(** [time.sleep(d)] *)
Definition time_sleep (d : Z) : M unit :=
  λ s,
    let w := env s in
    (Ok tt, State (self s) (World (files w) (script w) (sent w) (d :: slept w))).

(** [with open(name, "w", encoding="utf-8") as f: f.write(text)] *)
Definition write_file (name text : string) : M unit :=
  λ s,
    let w := env s in
    match files w !! name with
    | Some Directory => (Raise OSError, s)
    | _ =>
        (Ok tt,
         State (self s)
               (World (<[name := Text text]> (files w)) (script w) (sent w) (slept w)))
    end.

(** [with open(name, "r", encoding="utf-8") as f: r = f.read()], for a path
    that exists. *)
Definition read_file (name : string) : M string :=
  λ s,
    match files (env s) !! name with
    | Some (Text t) => (Ok t, s)
    | Some Undecodable => (Raise ValueError, s)
    | _ => (Raise OSError, s)
    end.

(** [os.path.exists(name)] *)
Definition path_exists (name : string) (w : world) : bool :=
  match files w !! name with
  | Some _ => true
  | None => false
  end.

(** The [logging] calls only emit a message. *)
Definition logging : M unit := ret tt.

(** ** The methods of [ApolloPyClient] *)

Section Methods.
Context `{Runtime}.

(** The attribute values [__init__] sets before it looks at the file. *)
Definition fresh (filename : option string) : client :=
  Client true PNone filename None (PInt (-1)) (PDict ∅) None None.

(** The [try] block of [__init__], on the text [r] read from the file. *)
Definition load (r : string) : M unit :=
  try_except
    (match json_loads r with
     | None => raise ValueError
     | Some v =>
         update (set_configurations v);;
         let* k := lift (getitem v "releaseKey") in
         update (set_releaseKey k)
     end)
    (λ _, logging).

(** [__init__(self, filename)], run in the world [w].  The new object is
    returned unless the constructor raises. *)
Definition init (filename : option string) (w : world) : res client :=
  let s0 := State (fresh filename) w in
  let body : M unit :=
    match filename with
    | Some name =>
        if negb (String.eqb name "") then
          if path_exists name w then
            let* r := read_file name in
            load r
          else ret tt
        else ret tt
    | None => ret tt
    end in
  match body s0 with
  | (Ok _, s) => Ok (self s)
  | (Raise e, _) => Raise e
  end.

(** [get(self, key)] *)
Definition get (key : string) : M pyval :=
  let* c := read configurations in
  lift (dict_get c key).

(** The URL [update_config] requests. *)
Definition fetch_url (base : string) (rk : pyval) : string :=
  if truthy rk then base ++ "?releaseKey=" ++ format_s rk else base.

(** What [update_config] writes to the file. *)
Definition dump (c : pyval) : string := json_dumps c.

(** [update_config(self)] *)
Definition update_config : M unit :=
  let* url := attr config_url in
  let* rk := read releaseKey in
  let* r := requests_get (fetch_url url rk) in
  (if negb (status_code r =? 304) then
     let* j := response_json r in
     let* c := lift (getitem j "configurations") in
     update (set_configurations c);;
     let* j' := response_json r in
     let* k := lift (getitem j' "releaseKey") in
     update (set_releaseKey k);;
     let* c := read configurations in
     let* k := read releaseKey in
     let* c' := lift (setitem c "releaseKey" k) in
     update (set_configurations c');;
     let* fn := read filename in
     match fn with
     | Some name =>
         if negb (String.eqb name "") then
           let* c := read configurations in
           write_file name (dump c)
         else ret tt
     | None => ret tt
     end
   else ret tt);;
  match requests_status_code with
  | Some _ => logging
  | None => raise AttributeError
  end.

(** [connect(self, server_url, appId, clusterName, namespaceName)] *)
Definition connect (server_url appId clusterName namespaceName : string) : M unit :=
  update (set_urls namespaceName
            (strip_slash server_url ++ "/configs/" ++ appId ++ "/"
               ++ clusterName ++ "/" ++ namespaceName)
            (strip_slash server_url ++ "/notifications/v2?appId=" ++ appId
               ++ "&cluster=" ++ clusterName ++ "&notifications="));;
  try_except update_config (λ _, logging).

(** One turn of the [while] loop of [schedule_update]. *)
Definition schedule_body (interval : Z) : M unit :=
  try_except update_config (λ _, logging);;
  time_sleep interval.

(** The URL [perceptual_update] requests. *)
Definition notification_query (ns : option string) (nid : string) : string :=
  "[{" ++ dq ++ "namespaceName" ++ dq ++ ": " ++ dq ++ default "None" ns ++ dq
    ++ ", " ++ dq ++ "notificationId" ++ dq ++ ": " ++ nid ++ "}]".

(** One turn of the [while] loop of [perceptual_update]. *)
Definition perceptual_body : M unit :=
  try_except
    (let* base := attr notification_url in
     let* ns := read namespaceName in
     let* nid := read notificationId in
     let* d := lift (format_d nid) in
     let* r := requests_get (base ++ quote (notification_query ns d)) in
     if negb (status_code r =? 304) then
       let* j := response_json r in
       let* e := lift (getindex j 0) in
       let* n := lift (getitem e "notificationId") in
       update (set_notificationId n);;
       update_config;;
       logging
     else ret tt)
    (λ _, logging;; time_sleep 60).

(** [close(self)] *)
Definition close : M unit :=
  update (set_sign false);;
  logging.

End Methods.

(** ** A reference runtime

    An executable stand-in for the libraries, used to run the client on
    concrete inputs.  Strings are read as sequences of code points below
    256; [dumps] prints what [json.dumps] prints by default (separators
    [", "] and [": "], everything outside printable ASCII escaped) and
    [loads] is a strict recursive-descent reader of that grammar. *)

Module RefJson.
Local Open Scope nat_scope.

Definition code (c : ascii) : nat := nat_of_ascii c.

Definition hex_digit (n : nat) : ascii :=
  ascii_of_nat (if Nat.ltb n 10 then 48 + n else 87 + n).

(** The escape of one character: the regular expression [ESCAPE_ASCII]
    and the table [ESCAPE_DCT] of [json.encoder]. *)
Definition escape_char (c : ascii) : string :=
  let n := code c in
  if Nat.eqb n 34 then String "\" dq
  else if Nat.eqb n 92 then "\\"
  else if Nat.eqb n 10 then "\n"
  else if Nat.eqb n 13 then "\r"
  else if Nat.eqb n 9 then "\t"
  else if Nat.eqb n 8 then "\b"
  else if Nat.eqb n 12 then "\f"
  else if (Nat.leb 32 n && Nat.leb n 126)%bool then String c EmptyString
  else String "\" (String "u" (String "0" (String "0"
         (String (hex_digit (Nat.div n 16))
            (String (hex_digit (Nat.modulo n 16)) EmptyString))))).

Fixpoint escape (s : string) : string :=
  match s with
  | EmptyString => EmptyString
  | String c s' => escape_char c ++ escape s'
  end.

Definition dumps_string (s : string) : string := dq ++ escape s ++ dq.

Fixpoint join (sep : string) (l : list string) : string :=
  match l with
  | [] => EmptyString
  | [x] => x
  | x :: l' => x ++ sep ++ join sep l'
  end.

Fixpoint dumps (v : pyval) : string :=
  match v with
  | PNone => "null"
  | PBool b => if b then "true" else "false"
  | PInt z => string_of_Z z
  | PStr s => dumps_string s
  | PList l => "[" ++ join ", " (map dumps l) ++ "]"
  | PDict d =>
      "{" ++ join ", "
               (map_fold (λ k x acc, (dumps_string k ++ ": " ++ dumps x) :: acc) [] d)
          ++ "}"
  end.

Definition is_ws (c : ascii) : bool :=
  let n := code c in
  (Nat.eqb n 32 || Nat.eqb n 9 || Nat.eqb n 10 || Nat.eqb n 13)%bool.

Fixpoint skip_ws (s : string) : string :=
  match s with
  | String c s' => if is_ws c then skip_ws s' else s
  | EmptyString => EmptyString
  end.

Definition hex_value (c : ascii) : option nat :=
  let n := code c in
  if (Nat.leb 48 n && Nat.leb n 57)%bool then Some (n - 48)
  else if (Nat.leb 97 n && Nat.leb n 102)%bool then Some (n - 87)
  else if (Nat.leb 65 n && Nat.leb n 70)%bool then Some (n - 55)
  else None.

Definition hex4 (a b c d : ascii) : option nat :=
  match hex_value a, hex_value b, hex_value c, hex_value d with
  | Some x, Some y, Some z, Some t => Some (((x * 16 + y) * 16 + z) * 16 + t)
  | _, _, _, _ => None
  end.

(** The character a one-letter escape stands for. *)
Definition unescape (e : ascii) : option ascii :=
  let n := code e in
  if Nat.eqb n 34 then Some e
  else if Nat.eqb n 92 then Some e
  else if Nat.eqb n 47 then Some e
  else if Nat.eqb n 110 then Some (ascii_of_nat 10)
  else if Nat.eqb n 114 then Some (ascii_of_nat 13)
  else if Nat.eqb n 116 then Some (ascii_of_nat 9)
  else if Nat.eqb n 98 then Some (ascii_of_nat 8)
  else if Nat.eqb n 102 then Some (ascii_of_nat 12)
  else None.

Definition cons_char (c : ascii) (r : option (string * string)) :
    option (string * string) :=
  match r with
  | Some (x, rest) => Some (String c x, rest)
  | None => None
  end.

(** A string literal, read from just after its opening quote. *)
Fixpoint loads_string (s : string) : option (string * string) :=
  match s with
  | EmptyString => None
  | String c s' =>
      if Nat.eqb (code c) 34 then Some (EmptyString, s')
      else if Nat.eqb (code c) 92 then
        match s' with
        | EmptyString => None
        | String e s'' =>
            if Nat.eqb (code e) 117 then
              match s'' with
              | String h1 (String h2 (String h3 (String h4 rest))) =>
                  match hex4 h1 h2 h3 h4 with
                  | Some n =>
                      if Nat.ltb n 256
                      then cons_char (ascii_of_nat n) (loads_string rest)
                      else None
                  | None => None
                  end
              | _ => None
              end
            else
              match unescape e with
              | Some c' => cons_char c' (loads_string s'')
              | None => None
              end
        end
      else if Nat.ltb (code c) 32 then None
      else cons_char c (loads_string s')
  end.

Definition is_digit (c : ascii) : bool :=
  (Nat.leb 48 (code c) && Nat.leb (code c) 57)%bool.

Fixpoint loads_digits (s : string) (acc : Z) : Z * string :=
  match s with
  | String c s' =>
      if is_digit c
      then loads_digits s' (10 * acc + Z.of_nat (code c - 48))%Z
      else (acc, s)
  | EmptyString => (acc, EmptyString)
  end.

(** An integer literal without its sign; a fraction or an exponent makes
    the number a float, which is not read. *)
Definition loads_nat (s : string) : option (Z * string) :=
  match s with
  | String c s' =>
      if is_digit c then
        let '(n, rest) :=
          if Nat.eqb (code c) 48 then (0%Z, s') else loads_digits s 0%Z in
        match rest with
        | String d _ =>
            if (is_digit d || Nat.eqb (code d) 46 || Nat.eqb (code d) 101
                || Nat.eqb (code d) 69)%bool
            then None else Some (n, rest)
        | EmptyString => Some (n, rest)
        end
      else None
  | EmptyString => None
  end.

Fixpoint strip_prefix (p s : string) : option string :=
  match p, s with
  | EmptyString, _ => Some s
  | String a p', String b s' => if Ascii.eqb a b then strip_prefix p' s' else None
  | String _ _, EmptyString => None
  end.

Fixpoint loads_value (fuel : nat) (s : string) : option (pyval * string) :=
  match fuel with
  | O => None
  | S fuel' =>
      match skip_ws s with
      | EmptyString => None
      | String c s' =>
          if Nat.eqb (code c) 34 then
            match loads_string s' with
            | Some (x, rest) => Some (PStr x, rest)
            | None => None
            end
          else if Nat.eqb (code c) 123 then
            match skip_ws s' with
            | String c' rest =>
                if Nat.eqb (code c') 125 then Some (PDict ∅, rest)
                else loads_members fuel' s' ∅
            | EmptyString => None
            end
          else if Nat.eqb (code c) 91 then
            match skip_ws s' with
            | String c' rest =>
                if Nat.eqb (code c') 93 then Some (PList [], rest)
                else loads_elements fuel' s' []
            | EmptyString => None
            end
          else if Nat.eqb (code c) 45 then
            match loads_nat s' with
            | Some (n, rest) => Some (PInt (- n)%Z, rest)
            | None => None
            end
          else if is_digit c then
            match loads_nat (String c s') with
            | Some (n, rest) => Some (PInt n, rest)
            | None => None
            end
          else
            match strip_prefix "null" (String c s') with
            | Some rest => Some (PNone, rest)
            | None =>
                match strip_prefix "true" (String c s') with
                | Some rest => Some (PBool true, rest)
                | None =>
                    match strip_prefix "false" (String c s') with
                    | Some rest => Some (PBool false, rest)
                    | None => None
                    end
                end
            end
      end
  end
with loads_members (fuel : nat) (s : string) (acc : gmap string pyval) :
    option (pyval * string) :=
  match fuel with
  | O => None
  | S fuel' =>
      match skip_ws s with
      | EmptyString => None
      | String c s1 =>
          if Nat.eqb (code c) 34 then
            match loads_string s1 with
            | None => None
            | Some (k, s2) =>
                match skip_ws s2 with
                | EmptyString => None
                | String c2 s3 =>
                    if Nat.eqb (code c2) 58 then
                      match loads_value fuel' s3 with
                      | None => None
                      | Some (v, s4) =>
                          match skip_ws s4 with
                          | EmptyString => None
                          | String c4 s5 =>
                              if Nat.eqb (code c4) 44
                              then loads_members fuel' s5 (<[k := v]> acc)
                              else if Nat.eqb (code c4) 125
                              then Some (PDict (<[k := v]> acc), s5)
                              else None
                          end
                      end
                    else None
                end
            end
          else None
      end
  end
with loads_elements (fuel : nat) (s : string) (acc : list pyval) :
    option (pyval * string) :=
  match fuel with
  | O => None
  | S fuel' =>
      match loads_value fuel' s with
      | None => None
      | Some (v, s1) =>
          match skip_ws s1 with
          | EmptyString => None
          | String c s2 =>
              if Nat.eqb (code c) 44
              then loads_elements fuel' s2 (acc ++ [v])
              else if Nat.eqb (code c) 93
              then Some (PList (acc ++ [v]), s2)
              else None
          end
      end
  end.

(** [json.loads]: one value, then nothing but white space. *)
Definition loads (s : string) : option pyval :=
  match loads_value (S (String.length s)) s with
  | Some (v, rest) =>
      match skip_ws rest with
      | EmptyString => Some v
      | String _ _ => None
      end
  | None => None
  end.

End RefJson.

Module RefUrl.
Local Open Scope nat_scope.

Definition hex_upper (n : nat) : ascii :=
  ascii_of_nat (if Nat.ltb n 10 then 48 + n else 55 + n).

(** The characters [quote] leaves alone: letters, digits, [_.-~] and the
    default [safe="/"]. *)
Definition unreserved (c : ascii) : bool :=
  let n := nat_of_ascii c in
  ((Nat.leb 65 n && Nat.leb n 90) || (Nat.leb 97 n && Nat.leb n 122)
   || (Nat.leb 48 n && Nat.leb n 57)
   || Nat.eqb n 95 || Nat.eqb n 46 || Nat.eqb n 45 || Nat.eqb n 126
   || Nat.eqb n 47)%bool.

Fixpoint quote (s : string) : string :=
  match s with
  | EmptyString => EmptyString
  | String c s' =>
      (if unreserved c then String c EmptyString
       else String "%" (String (hex_upper (Nat.div (nat_of_ascii c) 16))
              (String (hex_upper (Nat.modulo (nat_of_ascii c) 16)) EmptyString)))
      ++ quote s'
  end.

End RefUrl.

(** The reference runtime.  The module [requests] has no attribute
    [status_code]; containers are spelled as JSON. *)
Definition reference : Runtime :=
  {| json_loads := RefJson.loads;
     json_dumps := RefJson.dumps;
     quote := RefUrl.quote;
     repr_container := RefJson.dumps;
     requests_status_code := None |}.

(** ** The background loops *)

Definition outcome {A} (r : res A * state) : res A := r.1.
Definition after {A} (r : res A * state) : state := r.2.

Definition raised {A} (r : res A) : Prop := ∃ e, r = Raise e.

Section Loops.
Context `{Runtime}.

(** [while self.sign: body], run alone for at most [fuel] turns.  The
    answer is [true] when the loop was left and [false] when the fuel ran
    out first. *)
Fixpoint while_sign (fuel : nat) (body : M unit) : M bool :=
  match fuel with
  | O => ret false
  | S n =>
      let* b := read sign in
      if b then body;; while_sign n body else ret true
  end.

(** [schedule_update(self, interval)] *)
Definition schedule_update (fuel : nat) (interval : Z) : M bool :=
  while_sign fuel (schedule_body interval).

(** [perceptual_update(self, timeout)]; the source never uses [timeout]. *)
Definition perceptual_update (fuel : nat) (timeout : Z) : M bool :=
  while_sign fuel perceptual_body.

(** The two loops run in threads of their own, next to the caller.  A
    thread is about to test [self.sign], or inside a turn of its loop, or
    has left the loop (or died on an exception). *)
Inductive pc := AtTest | InBody | Finished.

Record threads := Threads {
  shared : state;
  scheduler : pc;
  watcher : pc;
  interval : Z;
}.

(** [listen(self, interval, timeout)] *)
Definition listen (s : state) (interval timeout : Z) : threads :=
  Threads s AtTest AtTest interval.

(** One move of a loop thread: the test of [while self.sign], or one turn
    of the body. *)
Definition advance (body : M unit) (p : pc) (s : state) : pc * state :=
  match p with
  | AtTest => if sign (self s) then (InBody, s) else (Finished, s)
  | InBody =>
      match body s with
      | (Ok _, s') => (AtTest, s')
      | (Raise _, s') => (Finished, s')
      end
  | Finished => (Finished, s)
  end.

(** What can happen next: the caller runs [close()], or one of the two
    threads moves. *)
Inductive event := Close | Scheduler | Watcher.

Definition step (e : event) (t : threads) : threads :=
  match e with
  | Close => Threads (after (close (shared t))) (scheduler t) (watcher t) (interval t)
  | Scheduler =>
      let '(p, s) := advance (schedule_body (interval t)) (scheduler t) (shared t) in
      Threads s p (watcher t) (interval t)
  | Watcher =>
      let '(p, s) := advance perceptual_body (watcher t) (shared t) in
      Threads s (scheduler t) p (interval t)
  end.

Fixpoint run (es : list event) (t : threads) : threads :=
  match es with
  | [] => t
  | e :: es' => run es' (step e t)
  end.

(** The number of loop turns the scheduler, and the watcher, take while
    [es] happens. *)
Fixpoint scheduler_turns (es : list event) (t : threads) : nat :=
  match es with
  | [] => O
  | e :: es' =>
      (match e, scheduler t with Scheduler, InBody => 1 | _, _ => 0 end
       + scheduler_turns es' (step e t))%nat
  end.

Fixpoint watcher_turns (es : list event) (t : threads) : nat :=
  match es with
  | [] => O
  | e :: es' =>
      (match e, watcher t with Watcher, InBody => 1 | _, _ => 0 end
       + watcher_turns es' (step e t))%nat
  end.

Definition same_event (e x : event) : bool :=
  match e, x with
  | Close, Close | Scheduler, Scheduler | Watcher, Watcher => true
  | _, _ => false
  end.

(** How many times [e] occurs in [es]. *)
Fixpoint moves (e : event) (es : list event) : nat :=
  match es with
  | [] => O
  | x :: es' => ((if same_event e x then 1 else 0) + moves e es')%nat
  end.

End Loops.


(** ** Worked inputs *)

(** A server answer with the given status and JSON body. *)
Definition answer (status : Z) (body : pyval) : option response :=
  Some (Response status (Some body)).

(** The body [{"configurations": cfg, "releaseKey": key}]. *)
Definition release (cfg key : pyval) : pyval :=
  PDict (<["configurations" := cfg]> {["releaseKey" := key]}).

(** The body [[{"namespaceName": "application", "notificationId": n}]]. *)
Definition notification (n : Z) : pyval :=
  PList [PDict (<["namespaceName" := PStr "application"]> {["notificationId" := PInt n]})].

(** A file system with nothing in it, and a world on it whose network
    follows [answers]. *)
Definition offline (answers : list (option response)) : world :=
  World ∅ answers [] [].

(** A client built without a file, with the URLs [connect] would give it for
    the server [http://apollo:8080], the application [app], the default
    cluster and the default namespace. *)
Definition plain : client :=
  set_urls "application"
    "http://apollo:8080/configs/app/default/application"
    "http://apollo:8080/notifications/v2?appId=app&cluster=default&notifications="
    (fresh None).

(** The same with the file [apollo.json] as its snapshot. *)
Definition mirrored : client :=
  set_urls "application"
    "http://apollo:8080/configs/app/default/application"
    "http://apollo:8080/notifications/v2?appId=app&cluster=default&notifications="
    (fresh (Some "apollo.json")).

(** The text [{"x": "1"}]: a snapshot without a release key. *)
Definition snapshot_x : string :=
  "{" ++ dq ++ "x" ++ dq ++ ": " ++ dq ++ "1" ++ dq ++ "}".

(** The text [{"x": "1", "releaseKey": "r1"}]. *)
Definition snapshot_x_r1 : string :=
  "{" ++ dq ++ "x" ++ dq ++ ": " ++ dq ++ "1" ++ dq ++ ", "
      ++ dq ++ "releaseKey" ++ dq ++ ": " ++ dq ++ "r1" ++ dq ++ "}".

(** A world without network whose only file is [apollo.json], holding
    [text]. *)
Definition stored (text : string) : world :=
  World {["apollo.json" := Text text]} [] [] [].

(** ** Vocabulary of the statements *)

Section Vocabulary.
Context `{Runtime}.

(** The client [__init__] builds from a file it could read. *)
Definition loaded (name t : string) : client :=
  match json_loads t with
  | None => fresh (Some name)
  | Some v =>
      match getitem v "releaseKey" with
      | Ok k => set_releaseKey k (set_configurations v (fresh (Some name)))
      | Raise _ => set_configurations v (fresh (Some name))
      end
  end.

(** The request one turn of the watcher sends. *)
Definition notification_request (c : client) (v d : string) : string :=
  v ++ quote (notification_query (namespaceName c) d).

(** The identifier a notification answer carries, when the watcher would
    store one. *)
Definition announced (r : response) : option pyval :=
  if status_code r =? 304 then None
  else match json r with
       | Some j =>
           match getindex j 0 with
           | Ok e =>
               match getitem e "notificationId" with
               | Ok n => Some n
               | Raise _ => None
               end
           | Raise _ => None
           end
       | None => None
       end.

End Vocabulary.

(** [keeps f m]: running [m] does not change what [f] reads in the client,
    however [m] ends. *)
Definition keeps {A B} (f : client → B) (m : M A) : Prop :=
  ∀ s, f (self (after (m s))) = f (self s).

(** [shrinks m]: all [m] does to the script is consume answers from its
    front. *)
Definition shrinks {A} (m : M A) : Prop :=
  ∀ s, script (env (after (m s))) `suffix_of` script (env s).

(** [rising z l]: the identifiers the answers of [l] carry are integers,
    none below [z], none below an earlier one. *)
Fixpoint rising (z : Z) (l : list (option response)) : Prop :=
  match l with
  | [] => True
  | o :: l' =>
      match o ≫= announced with
      | Some (PInt n) => z ≤ n ∧ rising n l'
      | Some _ => False
      | None => rising z l'
      end
  end.


(** How many of its own moves a thread still needs to leave its loop once
    the flag is down. *)
Definition moves_left (p : pc) : nat :=
  match p with
  | Finished => 0
  | AtTest => 1
  | InBody => 2
  end.

Definition turns_left (p : pc) : nat :=
  match p with
  | InBody => 1
  | _ => 0
  end.

(** The text the reference codec prints for one member of a flat object. *)
Definition member (kv : string * string) : string :=
  RefJson.dumps_string kv.1 ++ ": " ++ RefJson.dumps_string kv.2.

(** What reading the members leaves in the dictionary: each one inserted in
    turn. *)
Definition collect (acc : gmap string pyval) (l : list (string * string)) :
    gmap string pyval :=
  foldl (λ a kv, <[kv.1 := PStr kv.2]> a) acc l.

(** ** Proof steps shared by the theorems *)

Ltac unfold_M :=
  unfold outcome, after, bind, try_except, ret, raise, lift, read, update, attr,
    logging, response_json, time_sleep in *.

(** Case analysis on a scrutinee that contains no other case analysis. *)
Ltac split_innermost :=
  match goal with
  | |- context [match ?x with _ => _ end] =>
      lazymatch x with
      | context [match _ with _ => _ end] => fail
      | _ => destruct x eqn:?; simpl
      end
  end.

Section Fetch.
Context `{Runtime}.

(** C2. A 304 answer to [update_config] leaves every attribute of the
    client as it was, the configuration map and the release key among
    them, and writes no file. *)
Theorem update_config_304_untouched (c : client) (w : world) (r : response)
    (rest : list (option response)) :
  script w = Some r :: rest →
  status_code r = 304 →
  self (after (update_config (State c w))) = c
  ∧ files (env (after (update_config (State c w)))) = files w.
Proof.
  intros Hs H304. unfold update_config, requests_get. unfold_M.
  simpl. destruct (config_url c) as [u|]; simpl; [|done].
  rewrite Hs, H304. simpl.
  destruct requests_status_code; done.
Qed.

(** What a fetch leaves behind when it applies the response: the map the
    server sent with the release key added under its reserved name, and
    the release key. *)
Lemma update_config_applied (c : client) (w : world) (r : response)
    (rest : list (option response)) (u : string) (j : pyval)
    (d : gmap string pyval) (k : pyval) :
  config_url c = Some u →
  script w = Some r :: rest →
  status_code r ≠ 304 →
  json r = Some j →
  getitem j "configurations" = Ok (PDict d) →
  getitem j "releaseKey" = Ok k →
  configurations (self (after (update_config (State c w))))
    = PDict (<["releaseKey" := k]> d)
  ∧ releaseKey (self (after (update_config (State c w)))) = k.
Proof.
  intros Hu Hs Hst Hj Hc Hk. unfold update_config, requests_get. unfold_M.
  simpl. rewrite Hu. simpl. rewrite Hs. simpl.
  apply Z.eqb_neq in Hst. rewrite Hst. simpl.
  rewrite Hj. simpl. rewrite Hc. simpl. rewrite Hk. simpl.
  destruct (filename c) as [name|]; simpl.
  - destruct (negb (name =? "")%string); simpl.
    + unfold write_file. simpl.
      destruct (files w !! name) as [[]|]; simpl;
        destruct requests_status_code; done.
    + destruct requests_status_code; done.
  - destruct requests_status_code; done.
Qed.

(** When the body of the answer is not JSON, or has no [configurations]
    entry, the fetch raises before it has changed anything. *)
Lemma update_config_rejected (c : client) (w : world) (r : response)
    (rest : list (option response)) (u : string) :
  config_url c = Some u →
  script w = Some r :: rest →
  status_code r ≠ 304 →
  (json r = None ∨ ∃ j, json r = Some j ∧ raised (getitem j "configurations")) →
  raised (outcome (update_config (State c w)))
  ∧ self (after (update_config (State c w))) = c
  ∧ files (env (after (update_config (State c w)))) = files w.
Proof.
  intros Hu Hs Hst Hbad. unfold update_config, requests_get. unfold_M.
  simpl. rewrite Hu. simpl. rewrite Hs. simpl.
  apply Z.eqb_neq in Hst. rewrite Hst. simpl.
  destruct Hbad as [Hj | (j & Hj & e & He)]; rewrite Hj; simpl.
  - split; [by eexists|done].
  - rewrite He. simpl. split; [by eexists|done].
Qed.

(** C1, as the code has it.  [update_config] tests the status against 304
    only.  For every answer with another status: a body that is not JSON
    or lacks [configurations] makes the call raise with the client and
    the files unchanged, and a body with both [configurations] (an
    object) and [releaseKey] is applied, whether the status is 200 or
    not. *)
Theorem update_config_not_304 (c : client) (w : world) (r : response)
    (rest : list (option response)) (u : string) :
  config_url c = Some u →
  script w = Some r :: rest →
  status_code r ≠ 304 →
  ((json r = None ∨ ∃ j, json r = Some j ∧ raised (getitem j "configurations")) →
     raised (outcome (update_config (State c w)))
     ∧ self (after (update_config (State c w))) = c
     ∧ files (env (after (update_config (State c w)))) = files w)
  ∧ (∀ j d k,
       json r = Some j →
       getitem j "configurations" = Ok (PDict d) →
       getitem j "releaseKey" = Ok k →
       configurations (self (after (update_config (State c w))))
         = PDict (<["releaseKey" := k]> d)
       ∧ releaseKey (self (after (update_config (State c w)))) = k).
Proof.
  intros Hu Hs Hst. split.
  - intros Hbad. by eapply update_config_rejected.
  - intros j d k Hj Hc Hk. by eapply update_config_applied.
Qed.

Lemma get_outcome (key : string) (s : state) :
  outcome (get key s) = dict_get (configurations (self s)) key.
Proof. reflexivity. Qed.

(** [update_config] writes no attribute besides [configurations] and
    [releaseKey]. *)
Lemma update_config_frame (s : state) :
  let c' := self (after (update_config s)) in
  sign c' = sign (self s)
  ∧ filename c' = filename (self s)
  ∧ namespaceName c' = namespaceName (self s)
  ∧ notificationId c' = notificationId (self s)
  ∧ config_url c' = config_url (self s)
  ∧ notification_url c' = notification_url (self s).
Proof.
  destruct s as [c w]. unfold update_config, requests_get, write_file. unfold_M.
  simpl.
  repeat split_innermost; done.
Qed.

(** What a fetch does to the world besides the file: one request, for
    the configuration URL followed by the release key when the one held
    is truthy, one scripted answer consumed, no sleep. *)
Lemma update_config_world (s : state) (u : string) :
  config_url (self s) = Some u →
  sent (env (after (update_config s)))
    = fetch_url u (releaseKey (self s)) :: sent (env s)
  ∧ script (env (after (update_config s))) = tail (script (env s))
  ∧ slept (env (after (update_config s))) = slept (env s).
Proof.
  destruct s as [c w]. simpl.
  intros Hu. unfold update_config, requests_get, write_file. unfold_M.
  simpl. rewrite Hu. simpl.
  repeat split_innermost; done.
Qed.

Lemma update_config_request (c : client) (w : world) (u : string) :
  config_url c = Some u →
  head (sent (env (after (update_config (State c w)))))
    = Some (fetch_url u (releaseKey c)).
Proof.
  intros Hu. by destruct (update_config_world (State c w) u Hu) as (-> & _).
Qed.

(** C3, as the code has it.  After a 200 answer with the body
    [{"configurations": {"x": "1"}, "releaseKey": "r2"}], [get("x")] is
    ["1"] and the next fetch asks for the configuration URL followed by
    [?releaseKey=r2].  In general the request carries [?releaseKey=]
    exactly when the release key held is truthy: a key that is [None] or
    the empty string is left out. *)
Theorem update_config_get_and_next_url (c : client) (w : world) (r : response)
    (rest : list (option response)) (u : string) :
  config_url c = Some u →
  script w = Some r :: rest →
  (status_code r = 200 →
   json r = Some (release (PDict {["x" := PStr "1"]}) (PStr "r2")) →
   outcome (get "x" (after (update_config (State c w)))) = Ok (PStr "1")
   ∧ head (sent (env (after (update_config (after (update_config (State c w)))))))
       = Some (u ++ "?releaseKey=r2"))
  ∧ (truthy (releaseKey c) = true →
     head (sent (env (after (update_config (State c w)))))
       = Some (u ++ "?releaseKey=" ++ format_s (releaseKey c)))
  ∧ (truthy (releaseKey c) = false →
     head (sent (env (after (update_config (State c w))))) = Some u).
Proof.
  intros Hu Hs. split; [|split].
  - intros Hst Hj.
    assert (Hne : status_code r ≠ 304) by (rewrite Hst; done).
    destruct (update_config_applied c w r rest u _ {["x" := PStr "1"]} (PStr "r2")
                Hu Hs Hne Hj eq_refl eq_refl) as [Hc Hk].
    split.
    + rewrite get_outcome, Hc. simpl.
      rewrite lookup_insert_ne by done. by rewrite lookup_singleton_eq.
    + destruct (update_config_frame (State c w)) as (_ & _ & _ & _ & Hu' & _).
      simpl in Hu'. rewrite Hu in Hu'.
      destruct (after (update_config (State c w))) as [c1 w1] eqn:Heq.
      simpl in *. rewrite (update_config_request c1 w1 u Hu'), Hk. done.
  - intros Ht. rewrite (update_config_request c w u Hu).
    unfold fetch_url. by rewrite Ht.
  - intros Ht. rewrite (update_config_request c w u Hu).
    unfold fetch_url. by rewrite Ht.
Qed.

(** C4, as the code has it.  A fetch that applies an answer stores the
    release key in the configuration map under the name [releaseKey]:
    afterwards [get("releaseKey")] is the release key held, and for every
    other key [get] is the entry the server sent, or [None] when it sent
    none. *)
Theorem get_after_update_config (c : client) (w : world) (r : response)
    (rest : list (option response)) (u : string) (j : pyval)
    (d : gmap string pyval) (k : pyval) :
  config_url c = Some u →
  script w = Some r :: rest →
  status_code r ≠ 304 →
  json r = Some j →
  getitem j "configurations" = Ok (PDict d) →
  getitem j "releaseKey" = Ok k →
  outcome (get "releaseKey" (after (update_config (State c w)))) = Ok k
  ∧ releaseKey (self (after (update_config (State c w)))) = k
  ∧ ∀ key, key ≠ "releaseKey" →
      outcome (get key (after (update_config (State c w))))
        = Ok (default PNone (d !! key)).
Proof.
  intros Hu Hs Hst Hj Hc Hk.
  destruct (update_config_applied c w r rest u j d k Hu Hs Hst Hj Hc Hk)
    as [Hc' Hk'].
  split; [|split; [done|]].
  - rewrite get_outcome, Hc'. simpl. by rewrite lookup_insert_eq.
  - intros key Hkey. rewrite get_outcome, Hc'. simpl.
    by rewrite lookup_insert_ne.
Qed.

End Fetch.

(** C3 as stated fails: a client that holds the empty release key sends no
    [?releaseKey=]. *)
Lemma update_config_omits_empty_key :
  ¬ (∀ (c : client) (w : world) (u : string),
       config_url c = Some u →
       releaseKey c ≠ PNone →
       head (sent (env (after (@update_config reference (State c w)))))
         = Some (u ++ "?releaseKey=" ++ @format_s reference (releaseKey c))).
Proof.
  intros Hclaim.
  specialize (Hclaim
    (self (after (@update_config reference
                    (State plain (offline [answer 200 (release (PDict ∅) (PStr ""))])))))
    (offline [])
    "http://apollo:8080/configs/app/default/application"
    eq_refl).
  vm_compute in Hclaim. specialize (Hclaim ltac:(discriminate)).
  discriminate Hclaim.
Qed.

Lemma update_config_get_and_next_url_witness :
  outcome (get "x"
             (after (@update_config reference
                       (State plain
                          (offline [answer 200 (release (PDict {["x" := PStr "1"]}) (PStr "r2"))])))))
    = Ok (PStr "1")
  ∧ head (sent (env (after (@update_config reference
                     (after (@update_config reference
                       (State plain
                          (offline [answer 200 (release (PDict {["x" := PStr "1"]}) (PStr "r2"))])))))))) 
    = Some "http://apollo:8080/configs/app/default/application?releaseKey=r2".
Proof.
  destruct (@update_config_get_and_next_url reference plain
              (offline [answer 200 (release (PDict {["x" := PStr "1"]}) (PStr "r2"))])
              (Response 200 (Some (release (PDict {["x" := PStr "1"]}) (PStr "r2")))) []
              "http://apollo:8080/configs/app/default/application"
              eq_refl eq_refl) as [Hscenario _].
  exact (Hscenario eq_refl eq_refl).
Defined.

(** C4 as stated fails: after a fetch, [get("releaseKey")] is the release
    key and not [None]. *)
Lemma get_releaseKey_after_update_config :
  outcome (get "releaseKey"
             (after (@update_config reference
                       (State plain (offline [answer 200 (release (PDict ∅) (PStr "r1"))])))))
    = Ok (PStr "r1")
  ∧ releaseKey (self (after (@update_config reference
                       (State plain (offline [answer 200 (release (PDict ∅) (PStr "r1"))])))))
    = PStr "r1".
Proof. split; vm_compute; reflexivity. Qed.

Lemma get_after_update_config_witness :
  outcome (get "releaseKey"
             (after (@update_config reference
                       (State plain (offline [answer 200 (release (PDict ∅) (PStr "r1"))])))))
    = Ok (PStr "r1")
  ∧ outcome (get "x"
             (after (@update_config reference
                       (State plain (offline [answer 200 (release (PDict ∅) (PStr "r1"))])))))
    = Ok PNone.
Proof.
  destruct (@get_after_update_config reference plain
              (offline [answer 200 (release (PDict ∅) (PStr "r1"))])
              (Response 200 (Some (release (PDict ∅) (PStr "r1")))) []
              "http://apollo:8080/configs/app/default/application"
              (release (PDict ∅) (PStr "r1")) ∅ (PStr "r1")
              eq_refl eq_refl ltac:(done) eq_refl eq_refl eq_refl)
    as (Hkey & _ & Hother).
  split; [exact Hkey|]. exact (Hother "x" ltac:(done)).
Defined.

(** C1 as stated fails: an answer with status 500 whose body carries both
    fields is applied. *)
Lemma update_config_applies_status_500 :
  ¬ (∀ (c : client) (w : world) (r : response) (rest : list (option response)),
       script w = Some r :: rest →
       status_code r ≠ 200 →
       status_code r ≠ 304 →
       raised (outcome (@update_config reference (State c w)))
       ∧ configurations (self (after (@update_config reference (State c w))))
           = configurations c
       ∧ releaseKey (self (after (@update_config reference (State c w))))
           = releaseKey c).
Proof.
  intros Hclaim.
  destruct (Hclaim plain
              (offline [answer 500 (release (PDict {["x" := PStr "1"]}) (PStr "r2"))])
              (Response 500 (Some (release (PDict {["x" := PStr "1"]}) (PStr "r2"))))
              [] eq_refl) as (_ & _ & Hkey); [done..|].
  vm_compute in Hkey. discriminate Hkey.
Qed.

Lemma update_config_not_304_witness :
  (raised (outcome (@update_config reference
                      (State plain (offline [answer 200 (PDict {["status" := PInt 404]})]))))
   ∧ self (after (@update_config reference
                    (State plain (offline [answer 200 (PDict {["status" := PInt 404]})]))))
       = plain)
  ∧ releaseKey (self (after (@update_config reference
                    (State plain (offline [answer 500 (release (PDict ∅) (PStr "r2"))])))))
      = PStr "r2".
Proof.
  split.
  - destruct (@update_config_not_304 reference plain
                (offline [answer 200 (PDict {["status" := PInt 404]})])
                (Response 200 (Some (PDict {["status" := PInt 404]}))) []
                "http://apollo:8080/configs/app/default/application"
                eq_refl eq_refl ltac:(done)) as [Hrej _].
    destruct Hrej as (Hr & Hc & _); [|by split].
    right. eexists. split; [reflexivity|]. by exists KeyError.
  - destruct (@update_config_not_304 reference plain
                (offline [answer 500 (release (PDict ∅) (PStr "r2"))])
                (Response 500 (Some (release (PDict ∅) (PStr "r2")))) []
                "http://apollo:8080/configs/app/default/application"
                eq_refl eq_refl ltac:(done)) as [_ Happ].
    by destruct (Happ _ ∅ (PStr "r2") eq_refl eq_refl eq_refl) as [_ Hk].
Defined.

Lemma update_config_304_untouched_witness :
  self (after (@update_config reference (State plain (offline [Some (Response 304 None)])))) = plain
  ∧ files (env (after (@update_config reference
                         (State plain (offline [Some (Response 304 None)]))))) = ∅.
Proof.
  apply (@update_config_304_untouched reference plain
           (offline [Some (Response 304 None)]) (Response 304 None) []);
    reflexivity.
Defined.

Section Construction.
Context `{Runtime}.

Lemma init_no_file (name : string) (w : world) :
  files w !! name = None → init (Some name) w = Ok (fresh (Some name)).
Proof.
  intros Hf. unfold init, path_exists. rewrite Hf.
  by destruct (negb (name =? "")%string).
Qed.

Lemma init_text (name t : string) (w : world) :
  name ≠ "" →
  files w !! name = Some (Text t) →
  init (Some name) w = Ok (loaded name t).
Proof.
  intros Hn Hf. unfold init, loaded, path_exists, read_file, load. unfold_M.
  apply String.eqb_neq in Hn. rewrite Hn, Hf. simpl. rewrite Hf.
  destruct (json_loads t) as [v|]; simpl; [|done].
  by destruct (getitem v "releaseKey").
Qed.

(** The file is opened and read before the [try] block: a path that cannot
    be read as text makes the constructor raise. *)
Lemma init_unreadable (name : string) (w : world) :
  name ≠ "" →
  (files w !! name = Some Undecodable → init (Some name) w = Raise ValueError)
  ∧ (files w !! name = Some Directory → init (Some name) w = Raise OSError).
Proof.
  intros Hn. apply String.eqb_neq in Hn.
  split; intros Hf; unfold init, path_exists, read_file; unfold_M;
    rewrite Hn, Hf; simpl; by rewrite Hf.
Qed.

(** C5, as the code has it.  Construction succeeds without a file name,
    with a name no file has, and with a file of any text.  When the file
    is absent or its text is not JSON, the map is empty and no release
    key is held.  When the text is JSON but has no [releaseKey] entry, no
    release key is held and the store is the value read, not the empty
    map. *)
Theorem init_tolerant (name : string) (w : world) :
  init None w = Ok (fresh None)
  ∧ (name ≠ "" →
     (files w !! name = None →
      ∃ c, init (Some name) w = Ok c
           ∧ configurations c = PDict ∅ ∧ releaseKey c = PNone)
     ∧ (∀ t, files w !! name = Some (Text t) →
          ∃ c, init (Some name) w = Ok c
               ∧ (json_loads t = None →
                  configurations c = PDict ∅ ∧ releaseKey c = PNone)
               ∧ (∀ v, json_loads t = Some v →
                       raised (getitem v "releaseKey") →
                       configurations c = v ∧ releaseKey c = PNone))).
Proof.
  split; [done|]. intros Hn. split.
  - intros Hf. exists (fresh (Some name)). by rewrite init_no_file.
  - intros t Hf. exists (loaded name t). split; [by apply init_text|].
    unfold loaded. split.
    + intros Hj. by rewrite Hj.
    + intros v Hj [e He]. by rewrite Hj, He.
Qed.

(** C10. When the file holds JSON that is not an object, construction
    succeeds, the store is that value, and every [get] raises. *)
Theorem init_non_object_get_raises (name t : string) (w : world) (v : pyval) :
  name ≠ "" →
  files w !! name = Some (Text t) →
  json_loads t = Some v →
  (∀ d, v ≠ PDict d) →
  ∃ c, init (Some name) w = Ok c
       ∧ configurations c = v
       ∧ ∀ key w', outcome (get key (State c w')) = Raise AttributeError.
Proof.
  intros Hn Hf Hj Hv. exists (loaded name t). split; [by apply init_text|].
  assert (Hc : configurations (loaded name t) = v).
  { unfold loaded. rewrite Hj. by destruct (getitem v "releaseKey"). }
  split; [done|]. intros key w'. rewrite get_outcome. simpl. rewrite Hc.
  destruct v; try done. by destruct (Hv d).
Qed.

End Construction.

(** C5 as stated fails: a snapshot that is JSON without a release key is
    kept as the map. *)
Lemma init_keeps_snapshot_without_releaseKey :
  ∃ c v, @init reference (Some "apollo.json") (stored snapshot_x) = Ok c
         ∧ RefJson.loads snapshot_x = Some v
         ∧ getitem v "releaseKey" = Raise KeyError
         ∧ outcome (get "x" (State c (stored snapshot_x))) = Ok (PStr "1")
         ∧ configurations c ≠ PDict ∅.
Proof.
  eexists _, _. split; [vm_compute; reflexivity|].
  split; [vm_compute; reflexivity|].
  split; [vm_compute; reflexivity|].
  split; [vm_compute; reflexivity|].
  intros Heq. apply (f_equal (λ x, dict_get x "x")) in Heq.
  vm_compute in Heq. discriminate Heq.
Qed.

Lemma init_tolerant_witness :
  (∃ c, @init reference (Some "apollo.json") (offline []) = Ok c
        ∧ configurations c = PDict ∅ ∧ releaseKey c = PNone)
  ∧ (∃ c, @init reference (Some "apollo.json") (stored "not json") = Ok c
          ∧ configurations c = PDict ∅ ∧ releaseKey c = PNone)
  ∧ (∃ c, @init reference (Some "apollo.json") (stored snapshot_x) = Ok c
          ∧ releaseKey c = PNone).
Proof.
  split; [|split].
  - destruct (@init_tolerant reference "apollo.json" (offline [])) as [_ Hname].
    destruct (Hname ltac:(done)) as [Habsent _]. exact (Habsent eq_refl).
  - destruct (@init_tolerant reference "apollo.json" (stored "not json")) as [_ Hname].
    destruct (Hname ltac:(done)) as [_ Htext].
    destruct (Htext "not json" eq_refl) as (c & Hc & Hbad & _).
    exists c. split; [exact Hc|]. exact (Hbad eq_refl).
  - destruct (@init_tolerant reference "apollo.json" (stored snapshot_x)) as [_ Hname].
    destruct (Hname ltac:(done)) as [_ Htext].
    destruct (Htext snapshot_x eq_refl) as (c & Hc & _ & Hshape).
    exists c. split; [exact Hc|].
    destruct (Hshape (PDict {["x" := PStr "1"]}) eq_refl) as [_ Hk]; [|exact Hk].
    by exists KeyError.
Defined.

Lemma init_non_object_get_raises_witness :
  (∃ c, @init reference (Some "apollo.json") (stored "[]") = Ok c
        ∧ configurations c = PList []
        ∧ ∀ key w', outcome (get key (State c w')) = Raise AttributeError)
  ∧ (∃ c, @init reference (Some "apollo.json") (stored (dq ++ "abc" ++ dq)) = Ok c
          ∧ configurations c = PStr "abc"
          ∧ ∀ key w', outcome (get key (State c w')) = Raise AttributeError).
Proof.
  split.
  - apply (@init_non_object_get_raises reference "apollo.json" "[]" (stored "[]")
             (PList [])); done.
  - apply (@init_non_object_get_raises reference "apollo.json" (dq ++ "abc" ++ dq)
             (stored (dq ++ "abc" ++ dq)) (PStr "abc")); done.
Defined.

Section Watcher.
Context `{Runtime}.

(** A turn of the watcher that is answered 304: the request, and nothing
    else. *)
Lemma perceptual_body_304 (c : client) (w : world) (r : response)
    (rest : list (option response)) (v d : string) :
  notification_url c = Some v →
  format_d (notificationId c) = Ok d →
  script w = Some r :: rest →
  status_code r = 304 →
  perceptual_body (State c w)
    = (Ok tt, State c (World (files w) rest
                         (notification_request c v d :: sent w) (slept w))).
Proof.
  intros Hv Hd Hs Hst. unfold perceptual_body, requests_get. unfold_M.
  simpl. rewrite Hv. simpl. rewrite Hd. simpl. rewrite Hs. simpl.
  by rewrite Hst.
Qed.

(** A turn of the watcher that is answered with a list whose first
    element carries [notificationId]: the identifier is stored, then
    [update_config] runs once; when it raises, the handler sleeps. *)
Lemma perceptual_body_notified (c : client) (w : world) (r : response)
    (rest : list (option response)) (v d : string) (j e n : pyval) :
  notification_url c = Some v →
  format_d (notificationId c) = Ok d →
  script w = Some r :: rest →
  status_code r ≠ 304 →
  json r = Some j →
  getindex j 0 = Ok e →
  getitem e "notificationId" = Ok n →
  after (perceptual_body (State c w))
    = match update_config
              (State (set_notificationId n c)
                     (World (files w) rest
                            (notification_request c v d :: sent w) (slept w))) with
      | (Ok _, s') => s'
      | (Raise _, s') => after (time_sleep 60 s')
      end.
Proof.
  intros Hv Hd Hs Hst Hj He Hn. unfold perceptual_body, requests_get.
  unfold bind at 1 2 3 4 5. unfold try_except, attr, read, lift, after. simpl.
  rewrite Hv. simpl. rewrite Hd. simpl. rewrite Hs. simpl.
  apply Z.eqb_neq in Hst. rewrite Hst. simpl.
  unfold bind at 1 2 3. unfold response_json. rewrite Hj. unfold ret at 1.
  unfold lift. rewrite He, Hn. unfold bind at 1. unfold update at 1.
  unfold bind at 1. unfold notification_request. simpl.
  match goal with |- context [update_config ?s] => destruct (update_config s) as [[[]|x] s2] end;
    reflexivity.
Qed.

(** C7. When the watcher is answered 200 with the body
    [[{"namespaceName": "application", "notificationId": 5}]], the
    identifier becomes 5 and [update_config] runs exactly once: the turn
    ends in the state one run of [update_config] leaves (after the
    handler's sleep when that run raised), and its requests are the
    notification request and one fetch.  When the watcher is answered
    304, the turn changes nothing in the client, fetches nothing and does
    not sleep, and the loop goes on to its next turn. *)
Theorem perceptual_update_turn (c : client) (w : world) (r : response)
    (rest : list (option response)) (u v d : string) :
  config_url c = Some u →
  notification_url c = Some v →
  format_d (notificationId c) = Ok d →
  script w = Some r :: rest →
  (status_code r = 200 →
   json r = Some (notification 5) →
   notificationId (self (after (perceptual_body (State c w)))) = PInt 5
   ∧ after (perceptual_body (State c w))
       = match update_config
                 (State (set_notificationId (PInt 5) c)
                        (World (files w) rest
                               (notification_request c v d :: sent w) (slept w))) with
         | (Ok _, s') => s'
         | (Raise _, s') => after (time_sleep 60 s')
         end
   ∧ sent (env (after (perceptual_body (State c w))))
       = fetch_url u (releaseKey c) :: notification_request c v d :: sent w)
  ∧ (status_code r = 304 →
     perceptual_body (State c w)
       = (Ok tt, State c (World (files w) rest
                            (notification_request c v d :: sent w) (slept w)))
     ∧ ∀ fuel timeout,
         sign c = true →
         perceptual_update (S fuel) timeout (State c w)
           = perceptual_update fuel timeout
               (State c (World (files w) rest
                           (notification_request c v d :: sent w) (slept w)))).
Proof.
  intros Hu Hv Hd Hs. split.
  - intros Hst Hj.
    assert (Hne : status_code r ≠ 304) by (rewrite Hst; done).
    pose proof (perceptual_body_notified c w r rest v d _ _ (PInt 5)
                  Hv Hd Hs Hne Hj eq_refl eq_refl) as Hturn.
    set (s1 := State (set_notificationId (PInt 5) c)
                 (World (files w) rest (notification_request c v d :: sent w)
                    (slept w))) in *.
    pose proof (update_config_frame s1) as (_ & _ & _ & Hid & _).
    destruct (update_config_world s1 u Hu) as (Hsent & _).
    split; [|split; [exact Hturn|]].
    + rewrite Hturn. unfold after in *.
      destruct (update_config s1) as [[[]|x] s2]; exact Hid.
    + rewrite Hturn. unfold after in *.
      destruct (update_config s1) as [[[]|x] s2]; exact Hsent.
  - intros Hst.
    pose proof (perceptual_body_304 c w r rest v d Hv Hd Hs Hst) as Hturn.
    split; [exact Hturn|]. intros fuel timeout Hsign.
    unfold perceptual_update. simpl. unfold bind at 1. unfold read. simpl.
    rewrite Hsign. unfold bind at 1. by rewrite Hturn.
Qed.

End Watcher.

Lemma perceptual_update_turn_witness :
  notificationId (self (after (@perceptual_body reference
     (State plain (offline [answer 200 (notification 5); Some (Response 304 None)])))))
    = PInt 5
  ∧ slept (env (after (@perceptual_body reference
       (State plain (offline [Some (Response 304 None)]))))) = [].
Proof.
  split.
  - destruct (@perceptual_update_turn reference plain
                (offline [answer 200 (notification 5); Some (Response 304 None)])
                (Response 200 (Some (notification 5))) [Some (Response 304 None)]
                "http://apollo:8080/configs/app/default/application"
                "http://apollo:8080/notifications/v2?appId=app&cluster=default&notifications="
                "-1" eq_refl eq_refl eq_refl eq_refl) as [Hchanged _].
    by destruct (Hchanged eq_refl eq_refl) as [Hid _].
  - destruct (@perceptual_update_turn reference plain
                (offline [Some (Response 304 None)])
                (Response 304 None) []
                "http://apollo:8080/configs/app/default/application"
                "http://apollo:8080/notifications/v2?appId=app&cluster=default&notifications="
                "-1" eq_refl eq_refl eq_refl eq_refl) as [_ Hsame].
    destruct (Hsame eq_refl) as [Hturn _]. by rewrite Hturn.
Defined.

Section Watermark.
Context `{Runtime}.

Lemma connect_frame (a b c d : string) (s : state) :
  notificationId (self (after (connect a b c d s))) = notificationId (self s).
Proof.
  unfold connect. unfold bind at 1. unfold update at 1. unfold try_except, after.
  set (s1 := State _ (env s)).
  pose proof (update_config_frame s1) as (_ & _ & _ & Hid & _).
  unfold after in Hid. destruct (update_config s1) as [[[]|x] s2]; exact Hid.
Qed.

Lemma schedule_body_frame (i : Z) (s : state) :
  notificationId (self (after (schedule_body i s))) = notificationId (self s).
Proof.
  unfold schedule_body. unfold bind at 1. unfold try_except, after.
  pose proof (update_config_frame s) as (_ & _ & _ & Hid & _).
  unfold after in Hid. destruct (update_config s) as [[[]|x] s2]; exact Hid.
Qed.

(** One turn of the watcher leaves the identifier alone or stores the one
    its answer carries. *)
Lemma perceptual_body_watermark (s : state) :
  notificationId (self (after (perceptual_body s))) = notificationId (self s)
  ∨ ∃ r rest,
      script (env s) = Some r :: rest
      ∧ announced r = Some (notificationId (self (after (perceptual_body s)))).
Proof.
  destruct s as [c w].
  destruct (notification_url c) as [v|] eqn:Hv;
    [|left; unfold perceptual_body; unfold_M; simpl; by rewrite Hv].
  destruct (format_d (notificationId c)) as [d|x] eqn:Hd;
    [|left; unfold perceptual_body; unfold_M; simpl; rewrite Hv; simpl;
      by rewrite Hd].
  destruct (script w) as [|[r|] rest] eqn:Hs;
    [left; unfold perceptual_body, requests_get; unfold_M; simpl;
     rewrite Hv; simpl; rewrite Hd; simpl; by rewrite Hs| |
     left; unfold perceptual_body, requests_get; unfold_M; simpl;
     rewrite Hv; simpl; rewrite Hd; simpl; by rewrite Hs].
  destruct (decide (status_code r = 304)) as [Hst|Hst].
  { left. by rewrite (perceptual_body_304 c w r rest v d Hv Hd Hs Hst). }
  destruct (announced r) as [n|] eqn:Hn.
  - right. exists r, rest. split; [done|]. simpl. rewrite Hn. f_equal.
    unfold announced in Hn. apply Z.eqb_neq in Hst as Hst'. rewrite Hst' in Hn.
    destruct (json r) as [j|] eqn:Hj; [|done].
    destruct (getindex j 0) as [e|] eqn:He; [|done].
    destruct (getitem e "notificationId") as [n'|] eqn:Hn'; [|done].
    injection Hn as <-.
    rewrite (perceptual_body_notified c w r rest v d j e n' Hv Hd Hs Hst Hj He Hn').
    match goal with |- context [update_config ?s1] =>
      pose proof (update_config_frame s1) as (_ & _ & _ & Hid & _);
      unfold after in *; destruct (update_config s1) as [[[]|x] s2]
    end; simpl in *; by rewrite Hid.
  - left. unfold announced in Hn. apply Z.eqb_neq in Hst. rewrite Hst in Hn.
    unfold perceptual_body, requests_get. unfold_M. simpl.
    rewrite Hv. simpl. rewrite Hd. simpl. rewrite Hs. simpl. rewrite Hst. simpl.
    destruct (json r) as [j|]; simpl; [|done].
    destruct (getindex j 0) as [e|]; simpl; [|done].
    destruct (getitem e "notificationId") as [n'|]; simpl; done.
Qed.

End Watermark.

(** ** Attributes a statement leaves alone *)

Section Keeps.
Context {B : Type} (f : client → B).

Lemma keeps_ret {A} (a : A) : keeps f (ret a).
Proof. done. Qed.

Lemma keeps_raise {A} (e : exn) : keeps f (@raise A e).
Proof. done. Qed.

Lemma keeps_lift {A} (r : res A) : keeps f (lift r).
Proof. done. Qed.

Lemma keeps_read {A} (g : client → A) : keeps f (read g).
Proof. done. Qed.

Lemma keeps_attr {A} (g : client → option A) : keeps f (attr g).
Proof. intros s. unfold attr, after. by destruct (g (self s)). Qed.

Lemma keeps_logging : keeps f logging.
Proof. done. Qed.

Lemma keeps_time_sleep (d : Z) : keeps f (time_sleep d).
Proof. done. Qed.

Lemma keeps_response_json (r : response) : keeps f (response_json r).
Proof. intros s. unfold response_json. by destruct (json r). Qed.

Lemma keeps_requests_get (url : string) : keeps f (requests_get url).
Proof.
  intros s. unfold requests_get, after.
  by destruct (script (env s)) as [|[r|] rest].
Qed.

Lemma keeps_write_file (name text : string) : keeps f (write_file name text).
Proof.
  intros s. unfold write_file, after.
  by destruct (files (env s) !! name) as [[]|].
Qed.

Lemma keeps_update (g : client → client) :
  (∀ c, f (g c) = f c) → keeps f (update g).
Proof. intros Hg s. apply Hg. Qed.

Lemma keeps_bind {A C} (m : M A) (k : A → M C) :
  keeps f m → (∀ a, keeps f (k a)) → keeps f (bind m k).
Proof.
  intros Hm Hk s. unfold bind, after. specialize (Hm s). unfold after in Hm.
  destruct (m s) as [[a|e] s']; simpl in *; [|done].
  rewrite <- Hm. apply Hk.
Qed.

Lemma keeps_try_except {A} (m : M A) (h : exn → M A) :
  keeps f m → (∀ e, keeps f (h e)) → keeps f (try_except m h).
Proof.
  intros Hm Hh s. unfold try_except, after. specialize (Hm s). unfold after in Hm.
  destruct (m s) as [[a|e] s']; simpl in *; [done|].
  rewrite <- Hm. apply Hh.
Qed.

End Keeps.

Ltac keeps_step :=
  first
    [ apply keeps_bind; [|intros ?]
    | apply keeps_try_except; [|intros ?]
    | apply keeps_ret | apply keeps_raise | apply keeps_lift | apply keeps_read
    | apply keeps_attr | apply keeps_logging | apply keeps_time_sleep
    | apply keeps_response_json | apply keeps_requests_get
    | apply keeps_write_file
    | apply keeps_update; intros []; reflexivity
    | match goal with
      | |- keeps _ (match ?x with _ => _ end) => destruct x
      end ].

Section Shutdown.
Context `{Runtime}.

Lemma update_config_keeps_sign : keeps sign update_config.
Proof. unfold update_config. repeat keeps_step. Qed.

Lemma schedule_body_keeps_sign (i : Z) : keeps sign (schedule_body i).
Proof.
  unfold schedule_body. repeat keeps_step.
Qed.

Lemma perceptual_body_keeps_sign : keeps sign perceptual_body.
Proof.
  unfold perceptual_body. repeat keeps_step.
Qed.



(** A stopped flag stays stopped. *)
Lemma step_keeps_stopped (e : event) (t : threads) :
  sign (self (shared t)) = false → sign (self (shared (step e t))) = false.
Proof.
  intros Hs. destruct e; simpl; [done| |].
  - unfold advance. destruct (scheduler t); simpl; [by rewrite Hs| |done].
    pose proof (schedule_body_keeps_sign (interval t) (shared t)) as Hk.
    unfold after in Hk.
    destruct (schedule_body (interval t) (shared t)) as [[[]|x] s']; simpl in *;
      congruence.
  - unfold advance. destruct (watcher t); simpl; [by rewrite Hs| |done].
    pose proof (perceptual_body_keeps_sign (shared t)) as Hk.
    unfold after in Hk.
    destruct (perceptual_body (shared t)) as [[[]|x] s']; simpl in *; congruence.
Qed.

Lemma step_scheduler_stopped (e : event) (t : threads) :
  sign (self (shared t)) = false →
  match e with
  | Scheduler =>
      (moves_left (scheduler (step e t)) ≤ moves_left (scheduler t) - 1)%nat
      ∧ turns_left (scheduler (step e t)) = 0%nat
  | _ => scheduler (step e t) = scheduler t
  end.
Proof.
  intros Hs. destruct e; simpl; [done| |].
  - unfold advance. destruct (scheduler t); simpl.
    + rewrite Hs. simpl. split; [lia|done].
    + destruct (schedule_body (interval t) (shared t)) as [[[]|x] s']; simpl;
        split; (lia || done).
    + split; [lia|done].
  - by destruct (advance perceptual_body (watcher t) (shared t)).
Qed.

Lemma step_watcher_stopped (e : event) (t : threads) :
  sign (self (shared t)) = false →
  match e with
  | Watcher =>
      (moves_left (watcher (step e t)) ≤ moves_left (watcher t) - 1)%nat
      ∧ turns_left (watcher (step e t)) = 0%nat
  | _ => watcher (step e t) = watcher t
  end.
Proof.
  intros Hs. destruct e; simpl; [done| |].
  - by destruct (advance (schedule_body (interval t)) (scheduler t) (shared t)).
  - unfold advance. destruct (watcher t); simpl.
    + rewrite Hs. simpl. split; [lia|done].
    + destruct (perceptual_body (shared t)) as [[[]|x] s']; simpl;
        split; (lia || done).
    + split; [lia|done].
Qed.

Lemma scheduler_turns_stopped (es : list event) (t : threads) :
  sign (self (shared t)) = false →
  (scheduler_turns es t ≤ turns_left (scheduler t))%nat.
Proof.
  revert t. induction es as [|e es IH]; intros t Hs; simpl; [lia|].
  specialize (IH (step e t) (step_keeps_stopped e t Hs)).
  pose proof (step_scheduler_stopped e t Hs) as He.
  destruct e.
  - rewrite He in IH. lia.
  - destruct He as [_ He]. rewrite He in IH.
    revert IH. generalize (scheduler_turns es (step Scheduler t)).
    intros n Hn. destruct (scheduler t); simpl; lia.
  - rewrite He in IH. lia.
Qed.

Lemma watcher_turns_stopped (es : list event) (t : threads) :
  sign (self (shared t)) = false →
  (watcher_turns es t ≤ turns_left (watcher t))%nat.
Proof.
  revert t. induction es as [|e es IH]; intros t Hs; simpl; [lia|].
  specialize (IH (step e t) (step_keeps_stopped e t Hs)).
  pose proof (step_watcher_stopped e t Hs) as He.
  destruct e.
  - rewrite He in IH. lia.
  - rewrite He in IH. lia.
  - destruct He as [_ He]. rewrite He in IH.
    revert IH. generalize (watcher_turns es (step Watcher t)).
    intros n Hn. destruct (watcher t); simpl; lia.
Qed.

Lemma scheduler_finishes (es : list event) (t : threads) :
  sign (self (shared t)) = false →
  (moves_left (scheduler t) ≤ moves Scheduler es)%nat →
  scheduler (run es t) = Finished.
Proof.
  revert t. induction es as [|e es IH]; intros t Hs Hm; simpl in *.
  - destruct (scheduler t); simpl in *; (done || lia).
  - apply IH; [by apply step_keeps_stopped|].
    pose proof (step_scheduler_stopped e t Hs) as He.
    destruct e; simpl in Hm.
    + rewrite He. lia.
    + destruct He as [He _]. lia.
    + rewrite He. lia.
Qed.

Lemma watcher_finishes (es : list event) (t : threads) :
  sign (self (shared t)) = false →
  (moves_left (watcher t) ≤ moves Watcher es)%nat →
  watcher (run es t) = Finished.
Proof.
  revert t. induction es as [|e es IH]; intros t Hs Hm; simpl in *.
  - destruct (watcher t); simpl in *; (done || lia).
  - apply IH; [by apply step_keeps_stopped|].
    pose proof (step_watcher_stopped e t Hs) as He.
    destruct e; simpl in Hm.
    + rewrite He. lia.
    + rewrite He. lia.
    + destruct He as [He _]. lia.
Qed.

(** With the flag down and no thread inside a turn, nothing moves the
    shared state any more. *)
Lemma run_quiescent (es : list event) (t : threads) :
  sign (self (shared t)) = false →
  scheduler t ≠ InBody →
  watcher t ≠ InBody →
  shared (run es t) = shared t.
Proof.
  revert t. induction es as [|e es IH]; intros t Hs Hp Hq; simpl; [done|].
  assert (Hstep : shared (step e t) = shared t
                  ∧ scheduler (step e t) ≠ InBody
                  ∧ watcher (step e t) ≠ InBody).
  { destruct e; simpl.
    - split; [|done]. destruct (shared t) as [[] w]. simpl in *. by subst.
    - unfold advance. destruct (scheduler t); simpl; [|done|done].
      by rewrite Hs.
    - unfold advance. destruct (watcher t); simpl; [|done|done].
      by rewrite Hs. }
  destruct Hstep as (Hsh & Hp' & Hq').
  rewrite IH; [done| |done|done]. by rewrite Hsh.
Qed.

Lemma while_sign_stopped (fuel : nat) (body : M unit) (s : state) :
  sign (self s) = false → while_sign (S fuel) body s = (Ok true, s).
Proof. intros Hs. simpl. unfold bind, read. by rewrite Hs. Qed.

(** C9. Once [close()] has put the flag down, whatever the threads and
    the caller do next: each loop takes at most one more turn, namely the
    one it was in; a loop thread has left its loop after two moves of its
    own, the end of that turn and the test that follows; and from the
    moment no thread is inside a turn, the configuration map, the release
    key and the files never change again.  Run alone, either loop leaves
    at its first test. *)
Theorem close_stops_both_loops (t : threads) (es : list event) :
  sign (self (shared (step Close t))) = false
  ∧ (scheduler_turns es (step Close t) ≤ 1)%nat
  ∧ (watcher_turns es (step Close t) ≤ 1)%nat
  ∧ ((2 ≤ moves Scheduler es)%nat → scheduler (run es (step Close t)) = Finished)
  ∧ ((2 ≤ moves Watcher es)%nat → watcher (run es (step Close t)) = Finished)
  ∧ (scheduler (run es (step Close t)) ≠ InBody →
     watcher (run es (step Close t)) ≠ InBody →
     ∀ es',
       configurations (self (shared (run es' (run es (step Close t)))))
         = configurations (self (shared (run es (step Close t))))
       ∧ releaseKey (self (shared (run es' (run es (step Close t)))))
           = releaseKey (self (shared (run es (step Close t))))
       ∧ files (env (shared (run es' (run es (step Close t)))))
           = files (env (shared (run es (step Close t)))))
  ∧ (∀ fuel i,
       schedule_update (S fuel) i (shared (step Close t))
         = (Ok true, shared (step Close t)))
  ∧ (∀ fuel timeout,
       perceptual_update (S fuel) timeout (shared (step Close t))
         = (Ok true, shared (step Close t))).
Proof.
  assert (Hs : sign (self (shared (step Close t))) = false) by done.
  split; [done|]. split; [|split; [|split; [|split; [|split; [|split]]]]].
  - pose proof (scheduler_turns_stopped es _ Hs).
    destruct (scheduler (step Close t)); simpl in *; lia.
  - pose proof (watcher_turns_stopped es _ Hs).
    destruct (watcher (step Close t)); simpl in *; lia.
  - intros Hm. apply scheduler_finishes; [done|].
    destruct (scheduler (step Close t)); simpl; lia.
  - intros Hm. apply watcher_finishes; [done|].
    destruct (watcher (step Close t)); simpl; lia.
  - intros Hp Hq es'.
    assert (Hs' : sign (self (shared (run es (step Close t)))) = false).
    { clear Hp Hq. generalize dependent (step Close t). clear t.
      induction es as [|e es IH]; intros t Hs; simpl; [done|].
      apply IH. by apply step_keeps_stopped. }
    by rewrite (run_quiescent es' _ Hs' Hp Hq).
  - intros fuel i. by apply while_sign_stopped.
  - intros fuel timeout. by apply while_sign_stopped.
Qed.

End Shutdown.

(** ** The script only shrinks *)

Section Shrinks.

Lemma shrinks_ret {A} (a : A) : shrinks (ret a).
Proof. intros s. reflexivity. Qed.

Lemma shrinks_raise {A} (e : exn) : shrinks (@raise A e).
Proof. intros s. reflexivity. Qed.

Lemma shrinks_lift {A} (r : res A) : shrinks (lift r).
Proof. intros s. reflexivity. Qed.

Lemma shrinks_read {A} (g : client → A) : shrinks (read g).
Proof. intros s. reflexivity. Qed.

Lemma shrinks_update (g : client → client) : shrinks (update g).
Proof. intros s. reflexivity. Qed.

Lemma shrinks_attr {A} (g : client → option A) : shrinks (attr g).
Proof. intros s. unfold attr, after. destruct (g (self s)); reflexivity. Qed.

Lemma shrinks_logging : shrinks logging.
Proof. intros s. reflexivity. Qed.

Lemma shrinks_time_sleep (d : Z) : shrinks (time_sleep d).
Proof. intros s. reflexivity. Qed.

Lemma shrinks_response_json (r : response) : shrinks (response_json r).
Proof. intros s. unfold response_json. destruct (json r); reflexivity. Qed.

Lemma shrinks_requests_get (url : string) : shrinks (requests_get url).
Proof.
  intros s. unfold requests_get, after.
  destruct (script (env s)) as [|[r|] rest]; simpl; [reflexivity| |];
    by apply suffix_cons_r.
Qed.

Lemma shrinks_write_file (name text : string) : shrinks (write_file name text).
Proof.
  intros s. unfold write_file, after.
  destruct (files (env s) !! name) as [[]|]; reflexivity.
Qed.

Lemma shrinks_bind {A C} (m : M A) (k : A → M C) :
  shrinks m → (∀ a, shrinks (k a)) → shrinks (bind m k).
Proof.
  intros Hm Hk s. unfold bind, after. specialize (Hm s). unfold after in Hm.
  destruct (m s) as [[a|e] s']; simpl in *; [|done].
  etrans; [apply Hk|done].
Qed.

Lemma shrinks_try_except {A} (m : M A) (h : exn → M A) :
  shrinks m → (∀ e, shrinks (h e)) → shrinks (try_except m h).
Proof.
  intros Hm Hh s. unfold try_except, after. specialize (Hm s). unfold after in Hm.
  destruct (m s) as [[a|e] s']; simpl in *; [done|].
  etrans; [apply Hh|done].
Qed.

End Shrinks.

Ltac shrinks_step :=
  first
    [ apply shrinks_bind; [|intros ?]
    | apply shrinks_try_except; [|intros ?]
    | apply shrinks_ret | apply shrinks_raise | apply shrinks_lift
    | apply shrinks_read | apply shrinks_update
    | apply shrinks_attr | apply shrinks_logging | apply shrinks_time_sleep
    | apply shrinks_response_json | apply shrinks_requests_get
    | apply shrinks_write_file
    | match goal with
      | |- shrinks (match ?x with _ => _ end) => destruct x
      end ].

Section Rising.
Context `{Runtime}.

Lemma update_config_shrinks : shrinks update_config.
Proof. unfold update_config. repeat shrinks_step. Qed.

Lemma schedule_body_shrinks (i : Z) : shrinks (schedule_body i).
Proof. unfold schedule_body. repeat shrinks_step. Qed.

Lemma perceptual_body_shrinks : shrinks perceptual_body.
Proof. unfold perceptual_body. repeat shrinks_step. Qed.

Lemma rising_lower (z z' : Z) (l : list (option response)) :
  z ≤ z' → rising z' l → rising z l.
Proof.
  revert z z'. induction l as [|o l IH]; intros z z' Hz; simpl; [done|].
  destruct (o ≫= announced) as [[| |n| | |]|]; try done.
  - intros [Hn Hl]. split; [lia|done].
  - by apply IH.
Qed.

Lemma rising_suffix (z : Z) (l l' : list (option response)) :
  l' `suffix_of` l → rising z l → rising z l'.
Proof.
  intros [k ->]. revert z. induction k as [|o k IH]; intros z; simpl; [done|].
  destruct (o ≫= announced) as [[| |n| | |]|]; try done.
  - intros [Hn Hl]. apply IH. by apply (rising_lower z n).
  - apply IH.
Qed.

(** One turn of the watcher, when the answers to come carry rising
    identifiers: the identifier held does not go down. *)
Lemma perceptual_body_rising (s : state) (z : Z) :
  notificationId (self s) = PInt z →
  rising z (script (env s)) →
  ∃ z', notificationId (self (after (perceptual_body s))) = PInt z'
        ∧ z ≤ z'
        ∧ rising z' (script (env (after (perceptual_body s)))).
Proof.
  intros Hid Hr. pose proof (perceptual_body_shrinks s) as Hsuf.
  destruct (perceptual_body_watermark s) as [Hsame | (r & rest & Hs & Hn)].
  - exists z. rewrite Hsame. split; [done|]. split; [lia|].
    by apply (rising_suffix z (script (env s))).
  - rewrite Hs in Hr. simpl in Hr. rewrite Hn in Hr.
    destruct (notificationId (self (after (perceptual_body s))))
      as [| |n| | |]; try done.
    destruct Hr as [Hz Hrest]. exists n. split; [done|]. split; [done|].
    apply (rising_suffix n (script (env s))); [done|].
    rewrite Hs. simpl. rewrite Hn. split; [lia|done].
Qed.

Lemma step_rising (e : event) (t : threads) (z : Z) :
  notificationId (self (shared t)) = PInt z →
  rising z (script (env (shared t))) →
  ∃ z', notificationId (self (shared (step e t))) = PInt z'
        ∧ z ≤ z'
        ∧ rising z' (script (env (shared (step e t)))).
Proof.
  intros Hid Hr. destruct e; simpl.
  - exists z. split; [done|]. split; [lia|done].
  - unfold advance. destruct (scheduler t); simpl.
    + exists z. destruct (sign (self (shared t))); simpl; (split; [done|]);
        (split; [lia|done]).
    + pose proof (schedule_body_frame (interval t) (shared t)) as Hk.
      pose proof (schedule_body_shrinks (interval t) (shared t)) as Hsuf.
      unfold after in *.
      exists z.
      destruct (schedule_body (interval t) (shared t)) as [[[]|x] s']; simpl in *;
        (split; [congruence|]); (split; [lia|]);
        by apply (rising_suffix z (script (env (shared t)))).
    + exists z. split; [done|]. split; [lia|done].
  - unfold advance. destruct (watcher t); simpl.
    + exists z. destruct (sign (self (shared t))); simpl; (split; [done|]);
        (split; [lia|done]).
    + destruct (perceptual_body_rising (shared t) z Hid Hr) as (z' & Hid' & Hz & Hr').
      unfold after in *. exists z'.
      by destruct (perceptual_body (shared t)) as [[[]|x] s'].
    + exists z. split; [done|]. split; [lia|done].
Qed.

Lemma run_rising (es : list event) (t : threads) (z : Z) :
  notificationId (self (shared t)) = PInt z →
  rising z (script (env (shared t))) →
  ∃ z', notificationId (self (shared (run es t))) = PInt z'
        ∧ z ≤ z'
        ∧ rising z' (script (env (shared (run es t)))).
Proof.
  revert t z. induction es as [|e es IH]; intros t z Hid Hr; simpl.
  - exists z. split; [done|]. split; [lia|done].
  - destruct (step_rising e t z Hid Hr) as (z1 & Hid1 & Hz1 & Hr1).
    destruct (IH (step e t) z1 Hid1 Hr1) as (z2 & Hid2 & Hz2 & Hr2).
    exists z2. split; [done|]. split; [lia|done].
Qed.

Lemma run_app (es es' : list event) (t : threads) :
  run (es ++ es')%list t = run es' (run es t).
Proof. revert t. induction es as [|e es IH]; intros t; simpl; [done|]. apply IH. Qed.

(** C8, as the code has it.  The identifier is -1 in every client just
    built; [update_config], [connect], [get], [close] and a turn of the
    scheduler leave it alone, and so does every move of the threads but
    the watcher's; a turn of the watcher leaves it alone or sets it to the
    identifier its answer carries, whatever that is: the value is not
    compared with the one held.  So, in every run of the threads, the
    identifier never goes down as long as the identifiers the answers
    carry are integers that never go down. *)
Theorem notificationId_written_by_watcher_only :
  (∀ filename w c, init filename w = Ok c → notificationId c = PInt (-1))
  ∧ (∀ s, notificationId (self (after (update_config s))) = notificationId (self s))
  ∧ (∀ a b c d s,
       notificationId (self (after (connect a b c d s))) = notificationId (self s))
  ∧ (∀ key s, notificationId (self (after (get key s))) = notificationId (self s))
  ∧ (∀ s, notificationId (self (after (close s))) = notificationId (self s))
  ∧ (∀ i s,
       notificationId (self (after (schedule_body i s))) = notificationId (self s))
  ∧ (∀ e t, e ≠ Watcher →
       notificationId (self (shared (step e t))) = notificationId (self (shared t)))
  ∧ (∀ s,
       notificationId (self (after (perceptual_body s))) = notificationId (self s)
       ∨ ∃ r rest,
           script (env s) = Some r :: rest
           ∧ announced r = Some (notificationId (self (after (perceptual_body s)))))
  ∧ (∀ es es' t z,
       notificationId (self (shared t)) = PInt z →
       rising z (script (env (shared t))) →
       ∃ z1 z2,
         notificationId (self (shared (run es t))) = PInt z1
         ∧ notificationId (self (shared (run (es ++ es')%list t))) = PInt z2
         ∧ z ≤ z1 ∧ z1 ≤ z2).
Proof.
  split; [|split; [|split; [|split; [|split; [|split; [|split; [|split]]]]]]].
  - intros fn w c. unfold init.
    destruct fn as [name|]; [|by intros [= <-]].
    destruct (negb (name =? "")%string); [|by intros [= <-]].
    destruct (path_exists name w); [|by intros [= <-]].
    unfold read_file, load. unfold_M. simpl.
    destruct (files w !! name) as [[| |t]|]; simpl; try done.
    destruct (json_loads t) as [v|]; simpl; [|by intros [= <-]].
    destruct (getitem v "releaseKey"); simpl; by intros [= <-].
  - intros s. by pose proof (update_config_frame s) as (_ & _ & _ & Hid & _).
  - apply connect_frame.
  - intros key s. unfold get. unfold_M. simpl.
    by destruct (dict_get (configurations (self s)) key).
  - done.
  - apply schedule_body_frame.
  - intros [] t He; [done| |done]. simpl.
    unfold advance. destruct (scheduler t); simpl; [by destruct (sign _)| |done].
    pose proof (schedule_body_frame (interval t) (shared t)) as Hid.
    unfold after in Hid. by destruct (schedule_body _ _) as [[[]|x] s2].
  - apply perceptual_body_watermark.
  - intros es es' t z Hid Hr.
    destruct (run_rising es t z Hid Hr) as (z1 & Hid1 & Hz1 & Hr1).
    destruct (run_rising es' (run es t) z1 Hid1 Hr1) as (z2 & Hid2 & Hz2 & _).
    exists z1, z2. by rewrite run_app.
Qed.

End Rising.

(** C8 as stated fails: the watcher stores 5, then 3. *)
Lemma notificationId_decreases :
  notificationId (self (after (@perceptual_body reference
     (State plain (offline [answer 200 (notification 5); Some (Response 304 None);
                            answer 200 (notification 3); Some (Response 304 None)])))))
    = PInt 5
  ∧ notificationId (self (after (@perceptual_body reference
       (after (@perceptual_body reference
         (State plain (offline [answer 200 (notification 5); Some (Response 304 None);
                                answer 200 (notification 3); Some (Response 304 None)])))))))
    = PInt 3.
Proof. split; vm_compute; reflexivity. Qed.

Lemma notificationId_written_by_watcher_only_witness :
  notificationId (self (shared (@step reference Scheduler
     (listen (State plain (offline [])) 30 70)))) = PInt (-1)
  ∧ (∀ c, @init reference (Some "apollo.json") (stored snapshot_x_r1) = Ok c →
          notificationId c = PInt (-1))
  ∧ ∃ z1 z2,
      notificationId (self (shared (@run reference [Watcher; Watcher]
        (listen (State plain
                   (offline [answer 200 (notification 5); Some (Response 304 None);
                             answer 200 (notification 7); Some (Response 304 None)]))
                30 70)))) = PInt z1
      ∧ notificationId (self (shared (@run reference
          ([Watcher; Watcher] ++ [Scheduler; Watcher; Watcher; Watcher])%list
          (listen (State plain
                     (offline [answer 200 (notification 5); Some (Response 304 None);
                               answer 200 (notification 7); Some (Response 304 None)]))
                  30 70)))) = PInt z2
      ∧ -1 ≤ z1 ∧ z1 ≤ z2.
Proof.
  destruct (@notificationId_written_by_watcher_only reference)
    as (Hinit & _ & _ & _ & _ & _ & Hstep & _ & Hruns).
  split; [|split].
  - exact (Hstep Scheduler (listen (State plain (offline [])) 30 70) ltac:(done)).
  - intros c. apply Hinit.
  - apply Hruns; [reflexivity|]. vm_compute. repeat split; discriminate.
Defined.

(** ** The reference codec reads back what it prints *)

Section RefJsonFacts.
Import RefJson.

Lemma string_app_cons (x : ascii) (a b : string) :
  String x a ++ b = String x (a ++ b).
Proof. reflexivity. Qed.

Lemma string_app_nil (b : string) : "" ++ b = b.
Proof. reflexivity. Qed.

Lemma string_app_assoc (a b c : string) : (a ++ b) ++ c = a ++ (b ++ c).
Proof.
  induction a as [|x a IH]; [done|]. by rewrite !string_app_cons, IH.
Qed.

Lemma string_length_app (a b : string) :
  String.length (a ++ b) = (String.length a + String.length b)%nat.
Proof.
  induction a as [|x a IH]; [done|]. rewrite string_app_cons. simpl. by rewrite IH.
Qed.

(** Reading back one escaped character. *)
Lemma loads_string_escape_char (c : ascii) (rest : string) :
  loads_string (escape_char c ++ rest) = cons_char c (loads_string rest).
Proof.
  destruct c as [[] [] [] [] [] [] [] []]; reflexivity.
Qed.

Lemma loads_string_escape (s rest : string) :
  loads_string (escape s ++ String (ascii_of_nat 34) rest) = Some (s, rest).
Proof.
  induction s as [|c s IH]; [done|]. simpl.
  by rewrite string_app_assoc, loads_string_escape_char, IH.
Qed.

Ltac norm_str :=
  unfold dumps_string, dq;
  repeat first [rewrite string_app_assoc | rewrite string_app_cons
               | rewrite string_app_nil].

Lemma loads_value_string (f : nat) (s rest : string) :
  f ≠ 0%nat →
  loads_value f (String " " (String (ascii_of_nat 34)
                               (escape s ++ String (ascii_of_nat 34) rest)))
    = Some (PStr s, rest).
Proof.
  intros Hf. destruct f as [|f]; [done|]. simpl.
  by rewrite loads_string_escape.
Qed.

Lemma loads_members_member (f : nat) (k v tail : string) (acc : gmap string pyval) :
  f ≠ 0%nat →
  loads_members (S f) (member (k, v) ++ tail) acc
    = match skip_ws tail with
      | EmptyString => None
      | String c s =>
          if Nat.eqb (code c) 44 then loads_members f s (<[k := PStr v]> acc)
          else if Nat.eqb (code c) 125 then Some (PDict (<[k := PStr v]> acc), s)
          else None
      end.
Proof.
  intros Hf. unfold member. simpl fst. simpl snd. norm_str. simpl.
  rewrite loads_string_escape. simpl.
  by rewrite loads_value_string.
Qed.

Lemma loads_members_space (f : nat) (s : string) (acc : gmap string pyval) :
  loads_members f (String " " s) acc = loads_members f s acc.
Proof. by destruct f. Qed.

Lemma join_cons (sep x y : string) (l : list string) :
  join sep (x :: y :: l) = x ++ sep ++ join sep (y :: l).
Proof. reflexivity. Qed.

Lemma loads_members_join (l : list (string * string)) (f : nat)
    (acc : gmap string pyval) (rest : string) :
  l ≠ [] →
  (List.length l ≤ f)%nat →
  loads_members (S f) (join ", " (map member l) ++ String "}" rest) acc
    = Some (PDict (collect acc l), rest).
Proof.
  revert f acc. induction l as [|[k v] l IH]; intros f acc Hl Hf; [done|].
  destruct l as [|kv l].
  - simpl in Hf. simpl map. simpl join.
    rewrite loads_members_member by lia. reflexivity.
  - simpl map. rewrite join_cons, !string_app_assoc.
    simpl in Hf. rewrite loads_members_member by lia.
    rewrite !string_app_cons, string_app_nil. simpl skip_ws. simpl.
    rewrite loads_members_space.
    destruct f as [|f]; [lia|].
    rewrite (IH f); [done|done|]. simpl. lia.
Qed.

Lemma join_members_head (l : list (string * string)) (tail : string) :
  l ≠ [] →
  ∃ x, join ", " (map member l) ++ tail = String (ascii_of_nat 34) x.
Proof.
  intros Hl. destruct l as [|[k v] [|kv l]]; [done| |].
  - simpl map. simpl join. unfold member. norm_str. by eexists.
  - simpl map. rewrite join_cons. unfold member. norm_str. by eexists.
Qed.

Lemma join_members_length (l : list (string * string)) :
  (List.length l ≤ String.length (join ", " (map member l)))%nat.
Proof.
  induction l as [|[k v] l IH]; [done|].
  destruct l as [|kv l].
  - simpl map. simpl join. unfold member. norm_str. simpl. lia.
  - simpl map. rewrite join_cons. unfold member at 1. norm_str.
    simpl. rewrite !string_length_app. simpl. rewrite !string_length_app.
    simpl in IH. simpl. lia.
Qed.

Lemma dumps_dict (d : gmap string pyval) :
  dumps (PDict d)
    = "{" ++ join ", "
               (map_fold (λ k x acc, (dumps_string k ++ ": " ++ dumps x) :: acc) [] d)
          ++ "}".
Proof. reflexivity. Qed.

Lemma dumps_flat (m : gmap string string) :
  dumps (PDict (flat m)) = "{" ++ join ", " (map member (map_to_list m)) ++ "}".
Proof.
  rewrite dumps_dict. unfold flat.
  rewrite map_fold_foldr, map_to_list_fmap.
  replace (foldr _ _ _) with (map member (map_to_list m)); [done|].
  induction (map_to_list m) as [|[k v] l IH]; [done|].
  simpl. by rewrite IH.
Qed.

Lemma collect_snoc (acc : gmap string pyval) (l : list (string * string))
    (k v : string) :
  collect acc (l ++ [(k, v)])%list = <[k := PStr v]> (collect acc l).
Proof. unfold collect. by rewrite foldl_snoc. Qed.

Lemma collect_map_to_list (m : gmap string string) :
  collect ∅ (map_to_list m) = flat m.
Proof.
  assert (Hrev : ∀ l : list (string * string),
             collect ∅ l = list_to_map (reverse (prod_map id PStr <$> l))).
  { induction l as [|[k v] l IH] using rev_ind; [done|].
    rewrite collect_snoc, IH, fmap_app, reverse_app. done. }
  rewrite Hrev. unfold flat.
  rewrite <- (list_to_map_to_list (PStr <$> m)), map_to_list_fmap.
  apply list_to_map_proper; [|apply reverse_Permutation].
  rewrite fmap_reverse, reverse_Permutation.
  rewrite <- map_to_list_fmap. apply NoDup_fst_map_to_list.
Qed.

Lemma loads_value_object (f : nat) (x : string) :
  loads_value (S f) (String "{" (String (ascii_of_nat 34) x))
    = loads_members f (String (ascii_of_nat 34) x) ∅.
Proof. reflexivity. Qed.

(** The reference codec reads back what it printed from a flat
    dictionary of strings. *)
Lemma reference_round_trips : @codec_round_trips reference.
Proof.
  intros m. change (loads (dumps (PDict (flat m))) = Some (PDict (flat m))).
  rewrite dumps_flat.
  destruct (decide (map_to_list m = [])) as [Hnil|Hne].
  { rewrite Hnil. apply map_to_list_empty_iff in Hnil as ->.
    unfold flat. rewrite fmap_empty. reflexivity. }
  unfold loads. rewrite string_app_cons, string_app_nil.
  destruct (join_members_head (map_to_list m) "}" Hne) as [x Hx].
  rewrite Hx, loads_value_object, <- Hx.
  change (String.length (String "{" (join ", " (map member (map_to_list m)) ++ "}")))
    with (S (String.length (join ", " (map member (map_to_list m)) ++ "}"))).
  rewrite loads_members_join; [|done|].
  - simpl. by rewrite collect_map_to_list.
  - rewrite string_length_app. pose proof (join_members_length (map_to_list m)).
    simpl. lia.
Qed.
End RefJsonFacts.

Section Persistence.
Context `{Runtime}.

(** The file a fetch leaves when it applies the response and the client
    has a file name. *)
Lemma update_config_persisted (c : client) (w : world) (r : response)
    (rest : list (option response)) (u name : string) (j : pyval)
    (d : gmap string pyval) (k : pyval) :
  filename c = Some name →
  name ≠ "" →
  files w !! name ≠ Some Directory →
  config_url c = Some u →
  script w = Some r :: rest →
  status_code r ≠ 304 →
  json r = Some j →
  getitem j "configurations" = Ok (PDict d) →
  getitem j "releaseKey" = Ok k →
  files (env (after (update_config (State c w))))
    = <[name := Text (dump (PDict (<["releaseKey" := k]> d)))]> (files w).
Proof.
  intros Hf Hn Hdir Hu Hs Hst Hj Hc Hk. unfold update_config, requests_get.
  unfold_M. simpl. rewrite Hu. simpl. rewrite Hs. simpl.
  apply Z.eqb_neq in Hst. rewrite Hst. simpl.
  rewrite Hj. simpl. rewrite Hc. simpl. rewrite Hk. simpl. rewrite Hf.
  apply String.eqb_neq in Hn. rewrite Hn. simpl.
  unfold write_file. simpl.
  destruct (files w !! name) as [[]|]; simpl; try done;
    destruct requests_status_code; done.
Qed.

(** C6, as the code has it.  With a codec that reads back the flat
    dictionaries it prints: when a fetch applies the map [m] and the
    release key [k] and writes the snapshot, a client built from that file
    holds the release key [k] and the map [m] with [k] added under the
    name [releaseKey], which is also what the fetching client holds in
    memory.  The map read back is [m] itself exactly when [m] already
    binds [releaseKey] to [k]. *)
Theorem snapshot_round_trip (m : gmap string string) (k : string) (c : client)
    (w : world) (r : response) (rest : list (option response))
    (u name : string) (j : pyval) :
  codec_round_trips →
  filename c = Some name →
  name ≠ "" →
  files w !! name ≠ Some Directory →
  config_url c = Some u →
  script w = Some r :: rest →
  status_code r ≠ 304 →
  json r = Some j →
  getitem j "configurations" = Ok (PDict (flat m)) →
  getitem j "releaseKey" = Ok (PStr k) →
  ∃ c',
    init (Some name) (env (after (update_config (State c w)))) = Ok c'
    ∧ configurations c' = PDict (flat (<["releaseKey" := k]> m))
    ∧ releaseKey c' = PStr k
    ∧ configurations c' = configurations (self (after (update_config (State c w))))
    ∧ releaseKey c' = releaseKey (self (after (update_config (State c w))))
    ∧ (configurations c' = PDict (flat m) ↔ m !! "releaseKey" = Some k).
Proof.
  intros Hcodec Hf Hn Hdir Hu Hs Hst Hj Hc Hk.
  destruct (update_config_applied c w r rest u j _ _ Hu Hs Hst Hj Hc Hk)
    as [Hmem Hkey].
  pose proof (update_config_persisted c w r rest u name j _ _
                Hf Hn Hdir Hu Hs Hst Hj Hc Hk) as Hfile.
  assert (Hins : <["releaseKey" := PStr k]> (flat m)
                 = flat (<["releaseKey" := k]> m)).
  { unfold flat. by rewrite fmap_insert. }
  rewrite Hins in Hmem, Hfile.
  exists (loaded name (dump (PDict (flat (<["releaseKey" := k]> m))))).
  split.
  { apply init_text; [done|]. rewrite Hfile. apply lookup_insert_eq. }
  assert (Hload : loaded name (dump (PDict (flat (<["releaseKey" := k]> m))))
                  = set_releaseKey (PStr k)
                      (set_configurations (PDict (flat (<["releaseKey" := k]> m)))
                         (fresh (Some name)))).
  { unfold loaded, dump. rewrite Hcodec. simpl. unfold flat.
    by rewrite lookup_fmap, lookup_insert_eq. }
  rewrite Hload, Hmem, Hkey. simpl. repeat split; try done.
  - intros [= Heq]. apply (f_equal (λ x, x !! "releaseKey")) in Heq.
    unfold flat in Heq. rewrite !lookup_fmap, lookup_insert_eq in Heq.
    destruct (m !! "releaseKey") as [k'|]; simpl in Heq; congruence.
  - intros Hk'. by rewrite insert_id.
Qed.

End Persistence.

(** C6 as stated fails: the map read back from the snapshot of the empty map
    is not empty, it holds the release key. *)
Lemma snapshot_adds_releaseKey :
  ∃ c',
    @init reference (Some "apollo.json")
      (env (after (@update_config reference
                     (State mirrored (offline [answer 200 (release (PDict ∅) (PStr "r1"))])))))
      = Ok c'
    ∧ releaseKey c' = PStr "r1"
    ∧ dict_get (configurations c') "releaseKey" = Ok (PStr "r1")
    ∧ configurations c' ≠ PDict ∅.
Proof.
  eexists. split; [vm_compute; reflexivity|].
  split; [reflexivity|]. split; [vm_compute; reflexivity|].
  intros Heq. apply (f_equal (λ x, dict_get x "releaseKey")) in Heq.
  vm_compute in Heq. discriminate Heq.
Qed.

Lemma snapshot_round_trip_witness :
  ∃ c',
    @init reference (Some "apollo.json")
      (env (after (@update_config reference
                     (State mirrored
                        (offline [answer 200 (release (PDict (flat {["x" := "1"]}))
                                                (PStr "r1"))])))))
      = Ok c'
    ∧ configurations c' = PDict (flat (<["releaseKey" := "r1"]> {["x" := "1"]}))
    ∧ releaseKey c' = PStr "r1".
Proof.
  destruct (@snapshot_round_trip reference {["x" := "1"]} "r1" mirrored
              (offline [answer 200 (release (PDict (flat {["x" := "1"]})) (PStr "r1"))])
              (Response 200 (Some (release (PDict (flat {["x" := "1"]})) (PStr "r1"))))
              [] "http://apollo:8080/configs/app/default/application" "apollo.json"
              (release (PDict (flat {["x" := "1"]})) (PStr "r1"))
              reference_round_trips eq_refl ltac:(done) ltac:(done) eq_refl eq_refl
              ltac:(done) eq_refl eq_refl eq_refl)
    as (c' & Hinit & Hmap & Hkey & _).
  exists c'. by repeat split.
Defined.

Lemma close_stops_both_loops_witness :
  scheduler (@run reference [Scheduler; Watcher; Scheduler; Watcher]
               (@step reference Close
                  (@run reference [Scheduler; Watcher]
                     (listen (State plain (offline [])) 30 70))))
    = Finished
  ∧ watcher (@run reference [Scheduler; Watcher; Scheduler; Watcher]
               (@step reference Close
                  (@run reference [Scheduler; Watcher]
                     (listen (State plain (offline [])) 30 70))))
      = Finished.
Proof.
  destruct (@close_stops_both_loops reference
              (@run reference [Scheduler; Watcher]
                 (listen (State plain (offline [])) 30 70))
              [Scheduler; Watcher; Scheduler; Watcher])
    as (_ & _ & _ & Hscheduler & Hwatcher & _).
  split; [apply Hscheduler | apply Hwatcher]; simpl; lia.
Defined.

(** ** Further properties of the methods *)

Section Connect.
Context `{Runtime}.

Lemma rstrip_slash_snoc (s : string) : rstrip_slash (s ++ "/") = rstrip_slash s.
Proof.
  induction s as [|c s IH]; [done|].
  rewrite string_app_cons. simpl. by rewrite IH.
Qed.

Lemma strip_slash_snoc (s : string) : strip_slash (s ++ "/") = strip_slash s.
Proof.
  unfold strip_slash. induction s as [|c s IH]; [done|].
  rewrite string_app_cons. simpl.
  destruct (Ascii.eqb c "/"); [done|].
  by rewrite <- string_app_cons, rstrip_slash_snoc.
Qed.

Lemma strip_slash_cons (s : string) : strip_slash (String "/" s) = strip_slash s.
Proof. reflexivity. Qed.

(** [connect] is the assignment of the three attributes followed by a fetch
    whose outcome is dropped. *)
Lemma connect_unfold (server_url appId clusterName namespaceName' : string)
    (s : state) :
  connect server_url appId clusterName namespaceName' s
    = (Ok tt,
       after (update_config
                (State (set_urls namespaceName'
                          (strip_slash server_url ++ "/configs/" ++ appId ++ "/"
                             ++ clusterName ++ "/" ++ namespaceName')
                          (strip_slash server_url ++ "/notifications/v2?appId=" ++ appId
                             ++ "&cluster=" ++ clusterName ++ "&notifications=")
                          (self s))
                       (env s)))).
Proof.
  unfold connect. unfold bind at 1. unfold update at 1. unfold try_except, after, logging, ret.
  by destruct (update_config _) as [[[]|x] s2].
Qed.

(** X1. The first fetch of [connect] may fail in any way: [connect] still ends
    normally, with the namespace and both URLs set, having sent one
    request. *)
Theorem connect_resolves_urls (server_url appId clusterName namespaceName' : string)
    (s : state) :
  outcome (connect server_url appId clusterName namespaceName' s) = Ok tt
  ∧ namespaceName (self (after (connect server_url appId clusterName namespaceName' s)))
      = Some namespaceName'
  ∧ config_url (self (after (connect server_url appId clusterName namespaceName' s)))
      = Some (strip_slash server_url ++ "/configs/" ++ appId ++ "/" ++ clusterName
                ++ "/" ++ namespaceName')
  ∧ notification_url (self (after (connect server_url appId clusterName namespaceName' s)))
      = Some (strip_slash server_url ++ "/notifications/v2?appId=" ++ appId
                ++ "&cluster=" ++ clusterName ++ "&notifications=")
  ∧ sent (env (after (connect server_url appId clusterName namespaceName' s)))
      = fetch_url (strip_slash server_url ++ "/configs/" ++ appId ++ "/" ++ clusterName
                     ++ "/" ++ namespaceName') (releaseKey (self s))
        :: sent (env s).
Proof.
  rewrite connect_unfold.
  set (s1 := State _ (env s)).
  pose proof (update_config_frame s1) as (_ & _ & Hns & _ & Hcfg & Hntf).
  destruct (update_config_world s1 _ eq_refl) as (Hsent & _).
  by repeat split.
Qed.

(** X2. A trailing or a leading slash in the server address changes nothing. *)
Theorem connect_ignores_outer_slash (server_url appId clusterName namespaceName' : string)
    (s : state) :
  connect (server_url ++ "/") appId clusterName namespaceName' s
    = connect server_url appId clusterName namespaceName' s
  ∧ connect (String "/" server_url) appId clusterName namespaceName' s
    = connect server_url appId clusterName namespaceName' s.
Proof.
  unfold connect. by rewrite strip_slash_snoc, strip_slash_cons.
Qed.

End Connect.

Section FetchEdges.
Context `{Runtime}.

Lemma update_config_no_answer (c : client) (w : world) (u : string) :
  config_url c = Some u →
  (script w = [] ∨ ∃ rest, script w = None :: rest) →
  update_config (State c w)
    = (Raise ConnectionError,
       State c (World (files w) (tail (script w))
                  (fetch_url u (releaseKey c) :: sent w) (slept w))).
Proof.
  intros Hu Hs. unfold update_config, requests_get. unfold_M. simpl.
  rewrite Hu. simpl. by destruct Hs as [-> | [rest ->]].
Qed.

(** X6. A fetch that gets no answer raises [ConnectionError] after it has sent
    its request, and leaves the client and the files as they were. *)
Theorem update_config_transport_failure (c : client) (w : world) (u : string) :
  config_url c = Some u →
  (script w = [] ∨ ∃ rest, script w = None :: rest) →
  outcome (update_config (State c w)) = Raise ConnectionError
  ∧ self (after (update_config (State c w))) = c
  ∧ files (env (after (update_config (State c w)))) = files w
  ∧ sent (env (after (update_config (State c w))))
      = fetch_url u (releaseKey c) :: sent w.
Proof.
  intros Hu Hs. by rewrite (update_config_no_answer c w u Hu Hs).
Qed.

(** X7. An answer that has [configurations] but no [releaseKey]: the call
    raises, yet the map has already been replaced, without a [releaseKey]
    entry of the client's making; the release key held is the old one and
    no file is written. *)
Theorem update_config_without_releaseKey (c : client) (w : world) (r : response)
    (rest : list (option response)) (u : string) (j cfg : pyval) :
  config_url c = Some u →
  script w = Some r :: rest →
  status_code r ≠ 304 →
  json r = Some j →
  getitem j "configurations" = Ok cfg →
  raised (getitem j "releaseKey") →
  raised (outcome (update_config (State c w)))
  ∧ configurations (self (after (update_config (State c w)))) = cfg
  ∧ releaseKey (self (after (update_config (State c w)))) = releaseKey c
  ∧ files (env (after (update_config (State c w)))) = files w.
Proof.
  intros Hu Hs Hst Hj Hc [e He]. unfold update_config, requests_get. unfold_M.
  simpl. rewrite Hu. simpl. rewrite Hs. simpl.
  apply Z.eqb_neq in Hst. rewrite Hst. simpl.
  rewrite Hj. simpl. rewrite Hc. simpl. rewrite He. simpl.
  split; [by eexists|done].
Qed.

(** X8. Without a file name, or with the empty one, a fetch never touches the
    file system, whatever the answer. *)
Theorem update_config_without_file (s : state) :
  (filename (self s) = None ∨ filename (self s) = Some "") →
  files (env (after (update_config s))) = files (env s).
Proof.
  destruct s as [[sg rk fn ns nid cfg cu nu] w]. simpl. intros Hf.
  unfold update_config, requests_get, write_file. unfold_M. simpl.
  destruct Hf as [-> | ->]; repeat split_innermost; done.
Qed.

(** X9. When the snapshot cannot be written, the fetch raises [OSError] after
    the map and the release key have been replaced: the update in memory
    stays. *)
Theorem update_config_write_failure (c : client) (w : world) (r : response)
    (rest : list (option response)) (u name : string) (j : pyval)
    (d : gmap string pyval) (k : pyval) :
  filename c = Some name →
  name ≠ "" →
  files w !! name = Some Directory →
  config_url c = Some u →
  script w = Some r :: rest →
  status_code r ≠ 304 →
  json r = Some j →
  getitem j "configurations" = Ok (PDict d) →
  getitem j "releaseKey" = Ok k →
  outcome (update_config (State c w)) = Raise OSError
  ∧ configurations (self (after (update_config (State c w))))
      = PDict (<["releaseKey" := k]> d)
  ∧ releaseKey (self (after (update_config (State c w)))) = k
  ∧ files (env (after (update_config (State c w)))) = files w.
Proof.
  intros Hf Hn Hdir Hu Hs Hst Hj Hc Hk. unfold update_config, requests_get.
  unfold_M. simpl. rewrite Hu. simpl. rewrite Hs. simpl.
  apply Z.eqb_neq in Hst. rewrite Hst. simpl.
  rewrite Hj. simpl. rewrite Hc. simpl. rewrite Hk. simpl. rewrite Hf.
  apply String.eqb_neq in Hn. rewrite Hn. simpl.
  unfold write_file. simpl. by rewrite Hdir.
Qed.


(** X11. Two answers applied one after the other: the second map replaces the
    first, nothing of the first is merged in, and the second request
    carries the release key of the first answer. *)
Theorem update_config_replaces_map (c : client) (w : world) (r1 r2 : response)
    (rest : list (option response)) (u : string) (j1 j2 : pyval)
    (d1 d2 : gmap string pyval) (k1 k2 : pyval) :
  config_url c = Some u →
  script w = Some r1 :: Some r2 :: rest →
  status_code r1 ≠ 304 →
  json r1 = Some j1 →
  getitem j1 "configurations" = Ok (PDict d1) →
  getitem j1 "releaseKey" = Ok k1 →
  status_code r2 ≠ 304 →
  json r2 = Some j2 →
  getitem j2 "configurations" = Ok (PDict d2) →
  getitem j2 "releaseKey" = Ok k2 →
  configurations (self (after (update_config (after (update_config (State c w))))))
    = PDict (<["releaseKey" := k2]> d2)
  ∧ releaseKey (self (after (update_config (after (update_config (State c w)))))) = k2
  ∧ sent (env (after (update_config (after (update_config (State c w))))))
      = fetch_url u k1 :: fetch_url u (releaseKey c) :: sent w.
Proof.
  intros Hu Hs Hst1 Hj1 Hc1 Hk1 Hst2 Hj2 Hc2 Hk2.
  destruct (update_config_applied c w r1 (Some r2 :: rest) u j1 d1 k1
              Hu Hs Hst1 Hj1 Hc1 Hk1) as [_ Hkey].
  pose proof (update_config_frame (State c w)) as (_ & _ & _ & _ & Hu' & _).
  destruct (update_config_world (State c w) u Hu) as (Hsent & Hscript & _).
  simpl in Hu', Hsent, Hscript. rewrite Hu in Hu'. rewrite Hs in Hscript.
  destruct (after (update_config (State c w))) as [c1 w1].
  simpl in *.
  destruct (update_config_applied c1 w1 r2 rest u j2 d2 k2
              Hu' Hscript Hst2 Hj2 Hc2 Hk2) as [Hmap2 Hkey2].
  destruct (update_config_world (State c1 w1) u Hu') as (Hsent2 & _).
  simpl in Hsent2. by rewrite Hmap2, Hkey2, Hsent2, Hsent, Hkey.
Qed.

(** X12. When the module [requests] has no attribute [status_code], the last
    line of [update_config] raises: every call ends by raising, also the
    ones that applied an answer or were answered 304. *)
Theorem update_config_always_raises (s : state) :
  requests_status_code = None →
  raised (outcome (update_config s)).
Proof.
  intros Hrsc. destruct s as [c w].
  unfold update_config, requests_get, write_file. unfold_M. simpl. rewrite Hrsc.
  repeat split_innermost; by eexists.
Qed.

End FetchEdges.

Section LoopTurns.
Context `{Runtime}.






(** X14. A turn of the watcher whose request gets no answer, or an answer that
    is not 304 and carries no identifier: the client is unchanged, no
    fetch is made, and the handler sleeps 60. *)
Theorem perceptual_update_backoff (c : client) (w : world) (v d : string) :
  notification_url c = Some v →
  format_d (notificationId c) = Ok d →
  (script w = []
   ∨ (∃ rest, script w = None :: rest)
   ∨ ∃ r rest, script w = Some r :: rest ∧ status_code r ≠ 304 ∧ announced r = None) →
  perceptual_body (State c w)
    = (Ok tt, State c (World (files w) (tail (script w))
                         (notification_request c v d :: sent w) (60 :: slept w))).
Proof.
  intros Hv Hd Hs. unfold perceptual_body, requests_get, notification_request.
  unfold_M. simpl. rewrite Hv. simpl. rewrite Hd. simpl.
  destruct Hs as [-> | [[rest ->] | (r & rest & -> & Hst & Hn)]]; simpl; [done..|].
  unfold announced in Hn. apply Z.eqb_neq in Hst. rewrite Hst in Hn. rewrite Hst.
  simpl. destruct (json r) as [j|]; simpl; [|done].
  destruct (getindex j 0) as [e|]; simpl; [|done].
  by destruct (getitem e "notificationId").
Qed.



(** X16. The identifier is stored before the fetch: when the fetch that follows
    a notification gets no answer, the identifier is the new one while the
    map and the release key are the old ones, and the handler sleeps 60. *)
Theorem perceptual_update_fetch_fails (c : client) (w : world) (r : response)
    (rest : list (option response)) (u v d : string) (j e n : pyval) :
  config_url c = Some u →
  notification_url c = Some v →
  format_d (notificationId c) = Ok d →
  script w = Some r :: rest →
  status_code r ≠ 304 →
  json r = Some j →
  getindex j 0 = Ok e →
  getitem e "notificationId" = Ok n →
  (rest = [] ∨ ∃ rest', rest = None :: rest') →
  notificationId (self (after (perceptual_body (State c w)))) = n
  ∧ configurations (self (after (perceptual_body (State c w)))) = configurations c
  ∧ releaseKey (self (after (perceptual_body (State c w)))) = releaseKey c
  ∧ files (env (after (perceptual_body (State c w)))) = files w
  ∧ slept (env (after (perceptual_body (State c w)))) = 60 :: slept w.
Proof.
  intros Hu Hv Hd Hs Hst Hj He Hn Hrest.
  rewrite (perceptual_body_notified c w r rest v d j e n Hv Hd Hs Hst Hj He Hn).
  unfold update_config, requests_get. unfold_M. simpl. rewrite Hu. simpl.
  by destruct Hrest as [-> | [rest' ->]].
Qed.


End LoopTurns.

Section OfflineStart.
Context `{Runtime}.

(** X4. A client built without a snapshot and connected while the network gives
    no answer: nothing raises, and [get] answers [None] for every key. *)
Theorem offline_start_empty (server_url appId clusterName namespaceName' key : string)
    (w : world) :
  (script w = [] ∨ ∃ rest, script w = None :: rest) →
  init None w = Ok (fresh None)
  ∧ outcome (connect server_url appId clusterName namespaceName' (State (fresh None) w))
      = Ok tt
  ∧ outcome (get key (after (connect server_url appId clusterName namespaceName'
                               (State (fresh None) w))))
      = Ok PNone.
Proof.
  intros Hs. split; [done|]. rewrite connect_unfold. split; [done|].
  rewrite update_config_no_answer with (u := strip_slash server_url ++ "/configs/"
    ++ appId ++ "/" ++ clusterName ++ "/" ++ namespaceName'); [|done..].
  rewrite get_outcome. simpl. by rewrite lookup_empty.
Qed.

(** X5. A client built from a snapshot that is a JSON object with a
    [releaseKey] entry, and connected while the network gives no answer:
    it holds the release key of the snapshot, [get] answers from the
    snapshot, and the one request it sent carried that release key. *)
Theorem offline_start_snapshot (server_url appId clusterName namespaceName' : string)
    (name t k : string) (d : gmap string pyval) (w : world) :
  name ≠ "" →
  files w !! name = Some (Text t) →
  json_loads t = Some (PDict d) →
  d !! "releaseKey" = Some (PStr k) →
  k ≠ "" →
  (script w = [] ∨ ∃ rest, script w = None :: rest) →
  ∃ c,
    init (Some name) w = Ok c
    ∧ releaseKey c = PStr k
    ∧ (∀ key,
         outcome (get key (after (connect server_url appId clusterName namespaceName'
                                    (State c w))))
           = Ok (default PNone (d !! key)))
    ∧ sent (env (after (connect server_url appId clusterName namespaceName' (State c w))))
        = (strip_slash server_url ++ "/configs/" ++ appId ++ "/" ++ clusterName
             ++ "/" ++ namespaceName' ++ "?releaseKey=" ++ k) :: sent w.
Proof.
  intros Hn Hf Hj Hk Hne Hs. exists (loaded name t).
  split; [by apply init_text|].
  assert (Hl : loaded name t
               = set_releaseKey (PStr k) (set_configurations (PDict d) (fresh (Some name)))).
  { unfold loaded. rewrite Hj. simpl. by rewrite Hk. }
  rewrite Hl. split; [done|].
  rewrite connect_unfold.
  rewrite update_config_no_answer with (u := strip_slash server_url ++ "/configs/"
    ++ appId ++ "/" ++ clusterName ++ "/" ++ namespaceName'); [|done..].
  split.
  - intros key. by rewrite get_outcome.
  - simpl. unfold fetch_url. simpl. apply String.eqb_neq in Hne. rewrite Hne. simpl.
    by rewrite !string_app_assoc.
Qed.

End OfflineStart.

Section ConnectGet.
Context `{Runtime}.

(** X3. [connect] answered with a map and a release key, then [get]: the
    entries of the server's map, [None] for the keys it does not have, and
    the release key under [releaseKey]. *)
Theorem connect_then_get (server_url appId clusterName namespaceName' : string)
    (c : client) (w : world) (r : response) (rest : list (option response))
    (j : pyval) (d : gmap string pyval) (k : pyval) :
  script w = Some r :: rest →
  status_code r ≠ 304 →
  json r = Some j →
  getitem j "configurations" = Ok (PDict d) →
  getitem j "releaseKey" = Ok k →
  ∀ key,
    outcome (get key (after (connect server_url appId clusterName namespaceName'
                               (State c w))))
      = Ok (if String.eqb key "releaseKey" then k else default PNone (d !! key)).
Proof.
  intros Hs Hst Hj Hc Hk key. rewrite connect_unfold, get_outcome.
  destruct (update_config_applied
              (set_urls namespaceName'
                 (strip_slash server_url ++ "/configs/" ++ appId ++ "/" ++ clusterName
                    ++ "/" ++ namespaceName')
                 (strip_slash server_url ++ "/notifications/v2?appId=" ++ appId
                    ++ "&cluster=" ++ clusterName ++ "&notifications=") c)
              w r rest _ j d k eq_refl Hs Hst Hj Hc Hk) as [Hmap _].
  simpl in *. rewrite Hmap. simpl.
  destruct (String.eqb_spec key "releaseKey") as [->|Hne].
  - by rewrite lookup_insert_eq.
  - by rewrite lookup_insert_ne.
Qed.

End ConnectGet.

Lemma update_config_transport_failure_witness :
  outcome (@update_config reference (State plain (offline []))) = Raise ConnectionError
  ∧ self (after (@update_config reference (State plain (offline [])))) = plain.
Proof.
  destruct (@update_config_transport_failure reference plain (offline [])
              "http://apollo:8080/configs/app/default/application" eq_refl
              (or_introl eq_refl)) as (Hout & Hself & _).
  by split.
Defined.

Lemma update_config_without_releaseKey_witness :
  configurations (self (after (@update_config reference
     (State plain (offline [answer 200 (PDict {["configurations" := PDict {["x" := PStr "1"]}]})])))))
    = PDict {["x" := PStr "1"]}
  ∧ releaseKey (self (after (@update_config reference
     (State plain (offline [answer 200 (PDict {["configurations" := PDict {["x" := PStr "1"]}]})])))))
    = PNone.
Proof.
  destruct (@update_config_without_releaseKey reference plain
              (offline [answer 200 (PDict {["configurations" := PDict {["x" := PStr "1"]}]})])
              (Response 200 (Some (PDict {["configurations" := PDict {["x" := PStr "1"]}]})))
              [] "http://apollo:8080/configs/app/default/application"
              (PDict {["configurations" := PDict {["x" := PStr "1"]}]})
              (PDict {["x" := PStr "1"]})
              eq_refl eq_refl ltac:(done) eq_refl eq_refl
              (ex_intro _ KeyError eq_refl)) as (_ & Hmap & Hkey & _).
  by split.
Defined.

Lemma update_config_without_file_witness :
  files (env (after (@update_config reference
     (State plain (offline [answer 200 (release (PDict ∅) (PStr "r1"))]))))) = ∅.
Proof.
  exact (@update_config_without_file reference
           (State plain (offline [answer 200 (release (PDict ∅) (PStr "r1"))]))
           (or_introl eq_refl)).
Defined.

Lemma update_config_write_failure_witness :
  outcome (@update_config reference
     (State mirrored (World {["apollo.json" := Directory]}
                        [answer 200 (release (PDict ∅) (PStr "r1"))] [] [])))
    = Raise OSError
  ∧ releaseKey (self (after (@update_config reference
       (State mirrored (World {["apollo.json" := Directory]}
                          [answer 200 (release (PDict ∅) (PStr "r1"))] [] [])))))
      = PStr "r1".
Proof.
  destruct (@update_config_write_failure reference mirrored
              (World {["apollo.json" := Directory]}
                 [answer 200 (release (PDict ∅) (PStr "r1"))] [] [])
              (Response 200 (Some (release (PDict ∅) (PStr "r1")))) []
              "http://apollo:8080/configs/app/default/application" "apollo.json"
              (release (PDict ∅) (PStr "r1")) ∅ (PStr "r1")
              eq_refl ltac:(done) eq_refl eq_refl eq_refl ltac:(done)
              eq_refl eq_refl eq_refl) as (Hout & _ & Hkey & _).
  by split.
Defined.


Lemma update_config_replaces_map_witness :
  configurations (self (after (@update_config reference (after (@update_config reference
     (State plain (offline [answer 200 (release (PDict {["x" := PStr "1"]}) (PStr "r1"));
                            answer 200 (release (PDict {["y" := PStr "2"]}) (PStr "r2"))])))))))
    = PDict (<["releaseKey" := PStr "r2"]> {["y" := PStr "2"]}).
Proof.
  destruct (@update_config_replaces_map reference plain
              (offline [answer 200 (release (PDict {["x" := PStr "1"]}) (PStr "r1"));
                        answer 200 (release (PDict {["y" := PStr "2"]}) (PStr "r2"))])
              (Response 200 (Some (release (PDict {["x" := PStr "1"]}) (PStr "r1"))))
              (Response 200 (Some (release (PDict {["y" := PStr "2"]}) (PStr "r2"))))
              [] "http://apollo:8080/configs/app/default/application"
              (release (PDict {["x" := PStr "1"]}) (PStr "r1"))
              (release (PDict {["y" := PStr "2"]}) (PStr "r2"))
              {["x" := PStr "1"]} {["y" := PStr "2"]} (PStr "r1") (PStr "r2")
              eq_refl eq_refl ltac:(done) eq_refl eq_refl eq_refl
              ltac:(done) eq_refl eq_refl eq_refl) as (Hmap & _).
  exact Hmap.
Defined.

Lemma update_config_always_raises_witness :
  raised (outcome (@update_config reference
     (State plain (offline [answer 200 (release (PDict ∅) (PStr "r1"))]))))
  ∧ raised (outcome (@update_config reference
       (State plain (offline [Some (Response 304 None)])))).
Proof.
  split; apply (@update_config_always_raises reference); reflexivity.
Defined.


Lemma perceptual_update_backoff_witness :
  slept (env (after (@perceptual_body reference (State plain (offline []))))) = [60]
  ∧ self (after (@perceptual_body reference (State plain (offline [])))) = plain.
Proof.
  rewrite (@perceptual_update_backoff reference plain (offline [])
             "http://apollo:8080/notifications/v2?appId=app&cluster=default&notifications="
             "-1" eq_refl eq_refl (or_introl eq_refl)).
  by split.
Defined.


Lemma perceptual_update_fetch_fails_witness :
  notificationId (self (after (@perceptual_body reference
     (State plain (offline [answer 200 (notification 5)]))))) = PInt 5
  ∧ configurations (self (after (@perceptual_body reference
       (State plain (offline [answer 200 (notification 5)]))))) = PDict ∅.
Proof.
  destruct (@perceptual_update_fetch_fails reference plain
              (offline [answer 200 (notification 5)])
              (Response 200 (Some (notification 5))) []
              "http://apollo:8080/configs/app/default/application"
              "http://apollo:8080/notifications/v2?appId=app&cluster=default&notifications="
              "-1" (notification 5)
              (PDict (<["namespaceName" := PStr "application"]> {["notificationId" := PInt 5]}))
              (PInt 5)
              eq_refl eq_refl eq_refl eq_refl ltac:(done) eq_refl eq_refl eq_refl
              (or_introl eq_refl)) as (Hid & Hmap & _).
  by split.
Defined.


Lemma offline_start_empty_witness :
  outcome (get "any" (after (@connect reference "http://apollo:8080" "app" "default"
                               "application" (State (fresh None) (offline [])))))
    = Ok PNone.
Proof.
  destruct (@offline_start_empty reference "http://apollo:8080" "app" "default"
              "application" "any" (offline []) (or_introl eq_refl)) as (_ & _ & Hget).
  exact Hget.
Defined.

Lemma offline_start_snapshot_witness :
  ∃ c,
    @init reference (Some "apollo.json") (stored snapshot_x_r1) = Ok c
    ∧ outcome (get "x" (after (@connect reference "http://apollo:8080" "app" "default"
                                 "application" (State c (stored snapshot_x_r1)))))
        = Ok (PStr "1").
Proof.
  destruct (@offline_start_snapshot reference "http://apollo:8080" "app" "default"
              "application" "apollo.json" snapshot_x_r1 "r1"
              (<["x" := PStr "1"]> {["releaseKey" := PStr "r1"]})
              (stored snapshot_x_r1)
              ltac:(done) eq_refl ltac:(vm_compute; reflexivity) eq_refl ltac:(done)
              (or_introl eq_refl)) as (c & Hinit & _ & Hget & _).
  exists c. split; [exact Hinit|]. exact (Hget "x").
Defined.

Lemma connect_then_get_witness :
  outcome (get "x" (after (@connect reference "http://apollo:8080/" "app" "default"
                             "application"
                             (State (fresh None)
                                (offline [answer 200 (release (PDict {["x" := PStr "1"]})
                                                        (PStr "r1"))])))))
    = Ok (PStr "1").
Proof.
  exact (@connect_then_get reference "http://apollo:8080/" "app" "default" "application"
           (fresh None)
           (offline [answer 200 (release (PDict {["x" := PStr "1"]}) (PStr "r1"))])
           (Response 200 (Some (release (PDict {["x" := PStr "1"]}) (PStr "r1")))) []
           (release (PDict {["x" := PStr "1"]}) (PStr "r1"))
           {["x" := PStr "1"]} (PStr "r1")
           eq_refl ltac:(done) eq_refl eq_refl eq_refl "x").
Defined.

Section NonObject.
Context `{Runtime}.

(** X18. An answer whose [configurations] is not an object: the store and
    the release key are replaced, then adding the release key to the store
    raises [TypeError]; no file is written, and from then on every [get]
    raises. *)
Theorem update_config_non_object (c : client) (w : world) (r : response)
    (rest : list (option response)) (u : string) (j cfg k : pyval) :
  config_url c = Some u →
  script w = Some r :: rest →
  status_code r ≠ 304 →
  json r = Some j →
  getitem j "configurations" = Ok cfg →
  (∀ d, cfg ≠ PDict d) →
  getitem j "releaseKey" = Ok k →
  outcome (update_config (State c w)) = Raise TypeError
  ∧ configurations (self (after (update_config (State c w)))) = cfg
  ∧ releaseKey (self (after (update_config (State c w)))) = k
  ∧ files (env (after (update_config (State c w)))) = files w
  ∧ ∀ key, outcome (get key (after (update_config (State c w)))) = Raise AttributeError.
Proof.
  intros Hu Hs Hst Hj Hc Hcfg Hk.
  assert (Hrun : update_config (State c w)
                 = (Raise TypeError,
                    State (set_releaseKey k (set_configurations cfg c))
                          (World (files w) rest (fetch_url u (releaseKey c) :: sent w)
                             (slept w)))).
  { unfold update_config, requests_get. unfold_M. simpl. rewrite Hu. simpl.
    rewrite Hs. simpl. apply Z.eqb_neq in Hst. rewrite Hst. simpl.
    rewrite Hj. simpl. rewrite Hc. simpl. rewrite Hk. simpl.
    destruct cfg; try done. by destruct (Hcfg d). }
  rewrite Hrun. repeat split; try done.
  intros key. rewrite get_outcome. simpl.
  destruct cfg; try done. by destruct (Hcfg d).
Qed.

End NonObject.

Lemma update_config_non_object_witness :
  outcome (@update_config reference
     (State plain (offline [answer 200 (release (PList []) (PStr "r1"))])))
    = Raise TypeError
  ∧ outcome (get "x" (after (@update_config reference
       (State plain (offline [answer 200 (release (PList []) (PStr "r1"))])))))
      = Raise AttributeError.
Proof.
  destruct (@update_config_non_object reference plain
              (offline [answer 200 (release (PList []) (PStr "r1"))])
              (Response 200 (Some (release (PList []) (PStr "r1")))) []
              "http://apollo:8080/configs/app/default/application"
              (release (PList []) (PStr "r1")) (PList []) (PStr "r1")
              eq_refl eq_refl ltac:(done) eq_refl eq_refl ltac:(done) eq_refl)
    as (Hout & _ & _ & _ & Hget).
  split; [exact Hout|]. exact (Hget "x").
Defined.
